(** * TeVeo: the comic generation pipeline and the strip compositor

    A shallow embedding of the three pieces of the application that carry
    its behaviour:

    - [services/geminiService]: [generateComicPrompts] and
      [generateImageFromPrompt];
    - [App]: the [handleGenerateComic] callback, which sequences both;
    - [components/ComicStrip]: [drawComicForDownload] and the effect that
      runs it.

    Everything outside the program (the generation service, [JSON.parse],
    the image decoder, the network, the PNG encoder) is collected in a
    [World] record of oracles.  Asynchronous code is written in a small
    state-and-exception monad whose state holds the React state of [App]
    and a log of the observable events, in the order they happen. *)

From Stdlib Require Import ZArith String Ascii List Bool Lia DecimalString.
From stdpp Require Import base list.
Import ListNotations.

Local Open Scope string_scope.
Local Open Scope Z_scope.
Local Set Warnings "-register-all".

(** ** Constants ([constants.ts]) *)

Definition TEXT_GENERATION_MODEL : string := "gemini-3-flash-preview".
Definition IMAGE_GENERATION_MODEL : string := "gemini-2.5-flash-image".
Definition PLACEHOLDER_IMAGE_URL : string := "https://picsum.photos/500/500".
Definition PANEL_WIDTH : Z := 500.
Definition PANEL_HEIGHT : Z := 500.
Definition CAPTION_HEIGHT : Z := 50.
Definition COMIC_PADDING : Z := 20.
Definition DEFAULT_PANEL_COUNT : Z := 4.

(** ** JavaScript values

    [JSON.parse] returns an untyped value that the code casts to
    [GeneratedPanelPrompt[]] without looking at it, so the pipeline is
    modelled on the values themselves.  Numbers are the integers (the only
    numeric field of the script is [panelNumber]; the code never computes
    with a number it has parsed, and prints one only if a caption is a
    number); for strings see below. *)

Inductive JSValue : Type :=
| JUndefined
| JNull
| JBool (b : bool)
| JNum (n : Z)
| JStr (s : string)
| JArr (items : list JSValue)
| JObj (fields : list (string * JSValue)).

(** The spec's error kinds, and the two failures the code can raise that the
    spec does not name. *)
Inductive ErrorKind : Type :=
| ConfigurationError   (* getGenerativeAI: API_KEY is not set *)
| TransportError       (* ai.models.generateContent rejected *)
| EmptyResponseError   (* no text, or no inline image *)
| ParseError           (* JSON.parse threw a SyntaxError *)
| EmptyScriptError     (* handleGenerateComic: falsy or empty script *)
| TypeError.           (* the engine: not iterable, property of null *)

(** A thrown [Error].  JavaScript keeps the [message] only; [origin] is a
    ghost field that remembers the throw site the message comes from, so that
    the error kinds can be told apart after the message has been wrapped. *)
Record Exn : Type := mkExn { origin : ErrorKind; message : string }.

Definition string_of_Z (n : Z) : string := NilZero.string_of_int (Z.to_int n).

(** ** Strings

    A string is held as the bytes of its UTF-8 form, which is how a string
    literal of this file is read; an unpaired surrogate, which JavaScript
    allows in a string, is held as the three bytes of its code point.  What
    JavaScript does character by character ([trim], the class [\s] of a
    regular expression, [for ... of] over a string) is done on the
    characters these bytes encode, and [length] counts UTF-16 code units. *)

(** The bytes [10xxxxxx] continue a character. *)
Definition is_continuation (c : ascii) : bool :=
  let n := nat_of_ascii c in (128 <=? n)%nat && (n <? 192)%nat.

Definition starts_with_continuation (s : string) : bool :=
  match s with
  | String c _ => is_continuation c
  | EmptyString => false
  end.

(** The characters of a string, each as its bytes: a byte is put in front
    of the character after it while that character lacks its first byte. *)
Fixpoint code_points (s : string) : list string :=
  match s with
  | EmptyString => []
  | String c rest =>
      match code_points rest with
      | ch :: chs =>
          if starts_with_continuation ch then String c ch :: chs
          else String c EmptyString :: ch :: chs
      | [] => [String c EmptyString]
      end
  end.

(** The string made of the given characters. *)
Definition join (chars : list string) : string :=
  fold_right String.append EmptyString chars.

(** The UTF-8 form of a code point. *)
Definition utf8 (cp : Z) : string :=
  let byte n := ascii_of_nat (Z.to_nat n) in
  let continuation n := byte (128 + n mod 64) in
  if cp <? 128 then String (byte cp) EmptyString
  else if cp <? 2048 then
    String (byte (192 + cp / 64)) (String (continuation cp) EmptyString)
  else if cp <? 65536 then
    String (byte (224 + cp / 4096))
      (String (continuation (cp / 64)) (String (continuation cp) EmptyString))
  else
    String (byte (240 + cp / 262144))
      (String (continuation (cp / 4096))
         (String (continuation (cp / 64))
            (String (continuation cp) EmptyString))).

(** The UTF-16 code units of a character: two from U+10000 on, where the
    UTF-8 form starts with a byte [11110xxx]. *)
Definition code_units (ch : string) : nat :=
  match ch with
  | String c _ => if (240 <=? nat_of_ascii c)%nat then 2 else 1
  | EmptyString => 0
  end.

(** [s.length] *)
Definition js_length (s : string) : nat :=
  list_sum (map code_units (code_points s)).

(** The code points of [WhiteSpace] and [LineTerminator] in ECMAScript:
    what [trim] strips and what [\s] matches. *)
Definition WHITE_SPACE : list Z :=
  [0x9; 0xA; 0xB; 0xC; 0xD; 0x20; 0xA0; 0x1680;
   0x2000; 0x2001; 0x2002; 0x2003; 0x2004; 0x2005; 0x2006; 0x2007; 0x2008;
   0x2009; 0x200A; 0x2028; 0x2029; 0x202F; 0x205F; 0x3000; 0xFEFF].

Definition is_white_space (ch : string) : bool :=
  existsb (fun cp => String.eqb ch (utf8 cp)) WHITE_SPACE.

(** Truthiness, as tested by [!x] and [x ? a : b]. *)
Definition truthy (v : JSValue) : bool :=
  match v with
  | JUndefined | JNull => false
  | JBool b => b
  | JNum n => negb (n =? 0)
  | JStr s => negb (String.eqb s "")
  | JArr _ | JObj _ => true
  end.

(** [String(v)], as applied by template literals and by [fillText]. *)
Fixpoint to_string (v : JSValue) : string :=
  match v with
  | JUndefined => "undefined"
  | JNull => "null"
  | JBool true => "true"
  | JBool false => "false"
  | JNum n => string_of_Z n
  | JStr s => s
  | JArr items =>
      let element x :=
        match x with JUndefined | JNull => "" | _ => to_string x end in
      (fix join (l : list JSValue) : string :=
         match l with
         | [] => ""
         | [x] => element x
         | x :: rest => element x ++ "," ++ join rest
         end) items
  | JObj _ => "[object Object]"
  end.

Fixpoint assoc (k : string) (fields : list (string * JSValue)) : JSValue :=
  match fields with
  | [] => JUndefined
  | (k', v) :: rest => if String.eqb k k' then v else assoc k rest
  end.

(** [v.k] for the property names the code reads: [length], [imagePrompt]
    and [caption], none of which is inherited from a prototype. *)
Definition get_prop (v : JSValue) (k : string) : Exn + JSValue :=
  match v with
  | JUndefined =>
      inl (mkExn TypeError
             ("Cannot read properties of undefined (reading '" ++ k ++ "')"))
  | JNull =>
      inl (mkExn TypeError
             ("Cannot read properties of null (reading '" ++ k ++ "')"))
  | JObj fields => inr (assoc k fields)
  | JArr items =>
      inr (if String.eqb k "length" then JNum (Z.of_nat (length items))
           else JUndefined)
  | JStr s =>
      inr (if String.eqb k "length" then JNum (Z.of_nat (js_length s))
           else JUndefined)
  | JBool _ | JNum _ => inr JUndefined
  end.

(** The values a [for (const x of v)] loop visits: the elements of an
    array, the characters of a string. *)
Definition iterate (name : string) (v : JSValue) : Exn + list JSValue :=
  match v with
  | JArr items => inr items
  | JStr s => inr (map JStr (code_points s))
  | _ => inl (mkExn TypeError (name ++ " is not iterable"))
  end.

(** [v === 0]. *)
Definition is_zero (v : JSValue) : bool :=
  match v with JNum 0 => true | _ => false end.

(** [s.trim()]: the string without the white space and the line
    terminators it starts and ends with. *)
Fixpoint trim_start (l : list string) : list string :=
  match l with
  | ch :: rest => if is_white_space ch then trim_start rest else l
  | [] => []
  end.

Definition trim (s : string) : string :=
  join (rev (trim_start (rev (trim_start (code_points s))))).

(** ** The generation service ([@google/genai]) *)

Record Blob : Type := { data : JSValue; mimeType : JSValue }.
Record Part : Type := { inlineData : option Blob }.
Record Content : Type := { parts : option (list Part) }.
Record Candidate : Type := { content : option Content }.
Record GenerateContentResponse : Type :=
  { text : option string; candidates : option (list Candidate) }.

Record ImageData : Type :=
  { naturalWidth : Z; naturalHeight : Z; pixels : list Z }.

(** ** The canvas

    The bitmap of a canvas is kept as the list of the drawing operations
    applied to it since it was last reset, oldest first; two canvases with
    the same size and the same operations have the same pixels. *)

Inductive DrawOp : Type :=
| FillRect (fillStyle : string) (x y w h : Z)
| DrawImage (img : ImageData) (x y w h : Z)
| FillText (fillStyle font textAlign textBaseline : string)
           (txt : string) (x y : Z).

(** ** The world *)

Record World : Type := {
  (** [process.env.API_KEY] *)
  API_KEY : option string;
  (** [ai.models.generateContent] on the text model: the request number, the
      image, its mime type and the instruction; [inl m] is a rejection with
      message [m]. *)
  text_model : nat -> string -> string -> string ->
               string + GenerateContentResponse;
  (** [ai.models.generateContent] on the image model. *)
  image_model : nat -> JSValue -> string + GenerateContentResponse;
  (** [JSON.parse]; [inl m] is a [SyntaxError] with message [m]. *)
  JSON_parse : string -> string + JSValue;
  (** Decoding the payload of a [data:image/png;base64,] URL. *)
  decode_image : string -> option ImageData;
  (** Loading an image over the network: the load number and the URL. *)
  fetch_image : nat -> string -> option ImageData;
  (** [canvas.toDataURL('image/png')] of a bitmap of the given size; [None]
      when the browser refuses to export it and the call throws. *)
  png_encode : Z -> Z -> list DrawOp -> option string
}.

(** ** Types ([types.ts], as the code uses them) *)

Inductive AppView : Type := UPLOAD | PREVIEW | COMIC.

Record UploadedImage : Type := { base64 : string; filename : string }.

(** The fields hold whatever the script and the service supplied. *)
Record ComicPanel : Type := { caption : JSValue; imageBase64 : JSValue }.

(** The state of the [App] component. *)
Record AppState : Type := {
  view : AppView;
  uploadedImage : option UploadedImage;
  uploadedImageMimeType : option string;
  comicPanels : list ComicPanel;
  comicDownloadDataUrl : option string;
  loading : bool;
  error : option string
}.

(** ** Observable events *)

Inductive Generator : Type := PromptGenerator | PanelImageGenerator.

Inductive Update : Type :=
| SetView (v : AppView)
| SetComicPanels (l : list ComicPanel)
| SetComicDownloadDataUrl (u : option string)
| SetLoading (b : bool)
| SetError (e : option string).

Inductive Event : Type :=
| Invoke (g : Generator)                (* the async function is called *)
| Settle (g : Generator) (ok : bool)    (* its promise resolves or rejects *)
| ConsoleError (label : string) (e : Exn)
| SetState (u : Update).

Definition apply_update (u : Update) (a : AppState) : AppState :=
  match u with
  | SetView v =>
      {| view := v; uploadedImage := uploadedImage a;
         uploadedImageMimeType := uploadedImageMimeType a;
         comicPanels := comicPanels a;
         comicDownloadDataUrl := comicDownloadDataUrl a;
         loading := loading a; error := error a |}
  | SetComicPanels l =>
      {| view := view a; uploadedImage := uploadedImage a;
         uploadedImageMimeType := uploadedImageMimeType a;
         comicPanels := l;
         comicDownloadDataUrl := comicDownloadDataUrl a;
         loading := loading a; error := error a |}
  | SetComicDownloadDataUrl u =>
      {| view := view a; uploadedImage := uploadedImage a;
         uploadedImageMimeType := uploadedImageMimeType a;
         comicPanels := comicPanels a;
         comicDownloadDataUrl := u;
         loading := loading a; error := error a |}
  | SetLoading b =>
      {| view := view a; uploadedImage := uploadedImage a;
         uploadedImageMimeType := uploadedImageMimeType a;
         comicPanels := comicPanels a;
         comicDownloadDataUrl := comicDownloadDataUrl a;
         loading := b; error := error a |}
  | SetError e =>
      {| view := view a; uploadedImage := uploadedImage a;
         uploadedImageMimeType := uploadedImageMimeType a;
         comicPanels := comicPanels a;
         comicDownloadDataUrl := comicDownloadDataUrl a;
         loading := loading a; error := e |}
  end.

(** ** The monad of asynchronous code *)

(** [requests] counts the requests sent to the generation service so far;
    [log] lists the events, oldest first. *)
Record Sys : Type := { app : AppState; requests : nat; log : list Event }.

Definition M (A : Type) : Type := Sys -> (Exn + A) * Sys.

Definition ret {A} (a : A) : M A := fun s => (inr a, s).
Definition throw {A} (e : Exn) : M A := fun s => (inl e, s).
Definition bind {A B} (c : M A) (k : A -> M B) : M B :=
  fun s => match c s with
           | (inr a, s') => k a s'
           | (inl e, s') => (inl e, s')
           end.
Definition lift {A} (r : Exn + A) : M A := fun s => (r, s).

Notation "x <- c ;; k" := (bind c (fun x => k))
  (at level 100, c at next level, right associativity).
Notation "c ;; k" := (bind c (fun _ => k))
  (at level 100, right associativity).

Definition try_catch {A} (body : M A) (handler : Exn -> M A) : M A :=
  fun s => match body s with
           | (inl e, s') => handler e s'
           | r => r
           end.

Definition try_finally {A} (body : M A) (final : M unit) : M A :=
  fun s => let (r, s') := body s in
           match final s' with
           | (inl e, s'') => (inl e, s'')
           | (inr _, s'') => (r, s'')
           end.

Definition emit (ev : Event) : M unit :=
  fun s => (inr tt, {| app := app s; requests := requests s;
                       log := log s ++ [ev] |}).

Definition set_state (u : Update) : M unit :=
  fun s => (inr tt, {| app := apply_update u (app s); requests := requests s;
                       log := log s ++ [SetState u] |}).

Definition get_app : M AppState := fun s => (inr (app s), s).

Definition console_error (label : string) (e : Exn) : M unit :=
  emit (ConsoleError label e).

(** A request to the service: it takes the next request number. *)
Definition request {A} (oracle : nat -> string + A) : M A :=
  fun s =>
    let s' := {| app := app s; requests := S (requests s); log := log s |} in
    match oracle (requests s) with
    | inl m => (inl (mkExn TransportError m), s')
    | inr a => (inr a, s')
    end.

Definition succeeded {A} (r : Exn + A) : bool :=
  match r with inl _ => false | inr _ => true end.

(** The call of an [async function], from the call to the settling of the
    promise it returns; the caller [await]s it. *)
Definition async {A} (g : Generator) (body : M A) : M A :=
  fun s =>
    match (emit (Invoke g) ;; body) s with
    | (r, s') =>
        (r, {| app := app s'; requests := requests s';
               log := log s' ++ [Settle g (succeeded r)] |})
    end.

(** ** [services/geminiService] *)

Section Service.

Variable w : World.

Definition getGenerativeAI : M unit :=
  match API_KEY w with
  | Some (String _ _) => ret tt
  | _ => throw (mkExn ConfigurationError
                  "API_KEY environment variable is not set.")
  end.

(** The instruction sent along with the image. *)
Definition comic_instruction (panelCount : Z) : string :=
  "Based on this image, create a short, engaging " ++ string_of_Z panelCount
  ++ "-panel comic story for kids. For each panel, provide:
  1. A visual `imagePrompt` (max 50 words) that describes the scene and characters in that panel, suitable for an image generation model.
  2. A concise `caption` (max 15 words) that tells part of the story.
  Return the output as a JSON array of objects, where each object has a `panelNumber` (1 to "
  ++ string_of_Z panelCount
  ++ "), an `imagePrompt`, and a `caption`. The comic should have a clear beginning, middle, and end.".

Definition generateComicPrompts
    (imageBase64 mimeType : string) (panelCount : Z) : M JSValue :=
  async PromptGenerator (
    getGenerativeAI ;;
    let prompt := comic_instruction panelCount in
    try_catch (
      response <-
        request (fun n => text_model w n imageBase64 mimeType prompt) ;;
      match option_map trim (text response) with
      | Some (String c rest) =>
          let jsonStr := String c rest in
          match JSON_parse w jsonStr with
          | inr parsedData => ret parsedData
          | inl m => throw (mkExn ParseError m)
          end
      | _ =>
          throw (mkExn EmptyResponseError
                   "Empty response or no text content from Gemini API for comic prompts.")
      end)
    (fun error =>
       console_error "Error generating comic prompts:" error ;;
       throw (mkExn (origin error)
                ("Failed to generate comic prompts: " ++ message error)))).

(** [response.candidates?.[0]?.content?.parts || []] *)
Definition response_parts (response : GenerateContentResponse) : list Part :=
  match candidates response with
  | Some (first :: _) =>
      match content first with
      | Some c => match parts c with Some l => l | None => [] end
      | None => []
      end
  | _ => []
  end.

(** The loop over the parts: the data of the first part that has
    [inlineData]. *)
Fixpoint first_inline_data (l : list Part) : option JSValue :=
  match l with
  | [] => None
  | part :: rest =>
      match inlineData part with
      | Some blob => Some (data blob)
      | None => first_inline_data rest
      end
  end.

Definition generateImageFromPrompt (imagePrompt : JSValue) : M JSValue :=
  async PanelImageGenerator (
    getGenerativeAI ;;
    try_catch (
      response <- request (fun n => image_model w n imagePrompt) ;;
      match first_inline_data (response_parts response) with
      | Some d => ret d
      | None =>
          throw (mkExn EmptyResponseError
                   "No image data found in the Gemini API response.")
      end)
    (fun error =>
       console_error "Error generating image from prompt:" error ;;
       throw (mkExn (origin error)
                ("Failed to generate image: " ++ message error)))).

(** ** [App]: [handleGenerateComic] *)

(** The body of [for (const prompt of panelPrompts)], over the prompts that
    are left, with the panels pushed so far. *)
Fixpoint generate_panels
    (prompts : list JSValue) (generatedPanels : list ComicPanel)
    : M (list ComicPanel) :=
  match prompts with
  | [] => ret generatedPanels
  | prompt :: rest =>
      imagePrompt <- lift (get_prop prompt "imagePrompt") ;;
      image <- generateImageFromPrompt imagePrompt ;;
      cap <- lift (get_prop prompt "caption") ;;
      generate_panels rest
        (generatedPanels ++ [{| caption := cap; imageBase64 := image |}])
  end.

(** [!panelPrompts || panelPrompts.length === 0]; the property is read
    only when the value is truthy, where reading cannot throw. *)
Definition no_prompts (panelPrompts : JSValue) : bool :=
  negb (truthy panelPrompts)
  || match get_prop panelPrompts "length" with
     | inr len => is_zero len
     | inl _ => false
     end.

(** The [try] block of [handleGenerateComic]. *)
Definition try_block (image : UploadedImage) (mime : string) : M unit :=
  (* Step 1 *)
  panelPrompts <-
    generateComicPrompts (base64 image) mime DEFAULT_PANEL_COUNT ;;
  (if no_prompts panelPrompts
   then throw (mkExn EmptyScriptError
                 "El modelo no pudo generar las descripciones para las viñetas del cómic.")
   else ret tt) ;;
  (* Step 2 *)
  prompts <- lift (iterate "panelPrompts" panelPrompts) ;;
  generatedPanels <- generate_panels prompts [] ;;
  set_state (SetComicPanels generatedPanels) ;;
  set_state (SetView COMIC).

(** Its [catch] block. *)
Definition catch_block (err : Exn) : M unit :=
  console_error "Error al generar el cómic:" err ;;
  set_state (SetError (Some ("Error al generar el cómic: " ++ message err))).

Definition handleGenerateComic : M unit :=
  a <- get_app ;;
  match uploadedImage a, uploadedImageMimeType a with
  | Some image, Some (String c rest) =>
      set_state (SetLoading true) ;;
      set_state (SetError None) ;;
      set_state (SetComicPanels []) ;;
      set_state (SetComicDownloadDataUrl None) ;;
      try_finally
        (try_catch (try_block image (String c rest)) catch_block)
        (set_state (SetLoading false))
  | _, _ =>
      set_state (SetError (Some "No hay imagen cargada para generar el cómic."))
  end.

End Service.

(** ** [components/ComicStrip] *)

(** The drawing state of a 2D context. *)
Record Context2D : Type := {
  fillStyle : string;
  font : string;
  textAlign : string;
  textBaseline : string
}.

Definition default_context : Context2D :=
  {| fillStyle := "#000000"; font := "10px sans-serif";
     textAlign := "start"; textBaseline := "alphabetic" |}.

(** A canvas element: its size, whether [getContext('2d')] gives a context,
    the state of that context and the bitmap. *)
Record Canvas : Type := {
  width : Z;
  height : Z;
  has_2d : bool;
  ctx : Context2D;
  bitmap : list DrawOp
}.

(** Assigning [canvas.width] or [canvas.height] clears the bitmap and resets
    the context to its defaults. *)
Definition set_width (v : Z) (c : Canvas) : Canvas :=
  {| width := v; height := height c; has_2d := has_2d c;
     ctx := default_context; bitmap := [] |}.

Definition set_height (v : Z) (c : Canvas) : Canvas :=
  {| width := width c; height := v; has_2d := has_2d c;
     ctx := default_context; bitmap := [] |}.

Definition with_ctx (f : Context2D -> Context2D) (c : Canvas) : Canvas :=
  {| width := width c; height := height c; has_2d := has_2d c;
     ctx := f (ctx c); bitmap := bitmap c |}.

Definition set_fillStyle (v : string) : Canvas -> Canvas :=
  with_ctx (fun k => {| fillStyle := v; font := font k;
                        textAlign := textAlign k;
                        textBaseline := textBaseline k |}).

Definition set_font (v : string) : Canvas -> Canvas :=
  with_ctx (fun k => {| fillStyle := fillStyle k; font := v;
                        textAlign := textAlign k;
                        textBaseline := textBaseline k |}).

Definition set_textAlign (v : string) : Canvas -> Canvas :=
  with_ctx (fun k => {| fillStyle := fillStyle k; font := font k;
                        textAlign := v;
                        textBaseline := textBaseline k |}).

Definition paint (op : DrawOp) (c : Canvas) : Canvas :=
  {| width := width c; height := height c; has_2d := has_2d c;
     ctx := ctx c; bitmap := bitmap c ++ [op] |}.

Definition fillRect (x y w h : Z) (c : Canvas) : Canvas :=
  paint (FillRect (fillStyle (ctx c)) x y w h) c.

Definition drawImage (img : ImageData) (x y w h : Z) (c : Canvas) : Canvas :=
  paint (DrawImage img x y w h) c.

Definition fillText (txt : string) (x y : Z) (c : Canvas) : Canvas :=
  paint (FillText (fillStyle (ctx c)) (font (ctx c)) (textAlign (ctx c))
                  (textBaseline (ctx c)) txt x y) c.

(** [strip_prefix p s] is the rest of [s] after [p], when [s] starts with [p]. *)
Fixpoint strip_prefix (p s : string) : option string :=
  match p, s with
  | EmptyString, _ => Some s
  | String a p', String b s' =>
      if Ascii.eqb a b then strip_prefix p' s' else None
  | String _ _, EmptyString => None
  end.

Definition DATA_URL_PREFIX : string := "data:image/png;base64,".

Section Compositor.

Variable w : World.

(** What happens to an [Image] after its [src] is assigned: [Some img] is
    [onload], [None] is [onerror].  A data URL is decoded from its payload;
    any other URL is fetched, and the answer may change between loads. *)
Definition load_image (t : nat) (src : string) : option ImageData :=
  match strip_prefix DATA_URL_PREFIX src with
  | Some payload => decode_image w payload
  | None => fetch_image w t src
  end.

Definition toDataURL (c : Canvas) : option string :=
  png_encode w (width c) (height c) (bitmap c).

Definition panel_src (panel : ComicPanel) : string :=
  if truthy (imageBase64 panel)
  then DATA_URL_PREFIX ++ to_string (imageBase64 panel)
  else PLACEHOLDER_IMAGE_URL.

(** [img.onload] *)
Definition onload (img : ImageData) (panel : ComicPanel)
    (currentX : Z) (c : Canvas) : Canvas :=
  let c := drawImage img currentX COMIC_PADDING PANEL_WIDTH PANEL_HEIGHT c in
  fillText (to_string (caption panel))
           (currentX + PANEL_WIDTH / 2)
           (COMIC_PADDING + PANEL_HEIGHT + CAPTION_HEIGHT / 2 + 10) c.

(** [img.onerror] *)
Definition onerror (panel : ComicPanel) (currentX : Z) (c : Canvas)
    : Canvas :=
  let c := set_fillStyle "#e0e0e0" c in
  let c := fillRect currentX COMIC_PADDING PANEL_WIDTH PANEL_HEIGHT c in
  let c := set_fillStyle "#666" c in
  let c := fillText "Error cargando imagen"
                    (currentX + PANEL_WIDTH / 2)
                    (COMIC_PADDING + PANEL_HEIGHT / 2) c in
  let c := set_fillStyle "#333" c in
  fillText (to_string (caption panel))
           (currentX + PANEL_WIDTH / 2)
           (COMIC_PADDING + PANEL_HEIGHT + CAPTION_HEIGHT / 2 + 10) c.

(** The loop [for (const panel of panels)]: [t] numbers the image loads,
    each awaited before the next panel is looked at. *)
Fixpoint draw_panels (t : nat) (panels : list ComicPanel)
    (currentX : Z) (c : Canvas) : Canvas * Z :=
  match panels with
  | [] => (c, currentX)
  | panel :: rest =>
      let c :=
        match load_image t (panel_src panel) with
        | Some img => onload img panel currentX c
        | None => onerror panel currentX c
        end in
      draw_panels (S t) rest (currentX + PANEL_WIDTH + COMIC_PADDING) c
  end.

(** [drawComicForDownload]: the canvas behind [hiddenCanvasRef] afterwards,
    and the data URL handed to [setDownloadLink] and [onDownloadReady], if
    they were called (they are not when the function returns early or
    [toDataURL] throws). *)
Definition drawComicForDownload (t : nat) (hiddenCanvasRef : option Canvas)
    (panels : list ComicPanel) : option Canvas * option string :=
  match hiddenCanvasRef with
  | None => (None, None)
  | Some canvas =>
      if (length panels =? 0)%nat then (Some canvas, None)
      else if negb (has_2d canvas) then (Some canvas, None)
      else
        let numPanels := Z.of_nat (length panels) in
        let totalWidth :=
          numPanels * PANEL_WIDTH + (numPanels - 1) * COMIC_PADDING
          + 2 * COMIC_PADDING in
        let totalHeight := PANEL_HEIGHT + CAPTION_HEIGHT + 2 * COMIC_PADDING in
        let c := set_width totalWidth canvas in
        let c := set_height totalHeight c in
        let c := set_fillStyle "#f9fafb" c in
        let c := fillRect 0 0 totalWidth totalHeight c in
        let c := set_font "20px Arial" c in
        let c := set_fillStyle "#333" c in
        let c := set_textAlign "center" c in
        let c := fst (draw_panels t panels COMIC_PADDING c) in
        (Some c, toDataURL c)
  end.

(** The [useEffect] of [ComicStrip]. *)
Definition ComicStrip_effect (t : nat) (hiddenCanvasRef : option Canvas)
    (panels : list ComicPanel) (loading : bool)
    : option Canvas * option string :=
  if (0 <? length panels)%nat && negb loading
  then drawComicForDownload t hiddenCanvasRef panels
  else (hiddenCanvasRef, None).

End Compositor.

(** * Vocabulary of the properties *)

(** ** Characters *)

Fixpoint all_continuation (s : string) : bool :=
  match s with
  | EmptyString => true
  | String c rest => is_continuation c && all_continuation rest
  end.

(** The string has the shape of one character: a byte, then bytes that
    continue it. *)
Definition char_shaped (ch : string) : bool :=
  match ch with
  | String _ rest => all_continuation rest
  | EmptyString => false
  end.

(** A list of characters as [code_points] cuts them: each has the shape of
    a character, and each but the first starts with its own first byte. *)
Definition grouped (chars : list string) : Prop :=
  Forall (fun ch => char_shaped ch = true) chars
  /\ Forall (fun ch => starts_with_continuation ch = false) (tail chars).

(** ** Runs and their logs *)

(** A run starts from an [App] state after [n] earlier requests, with an
    empty log. *)
Definition start (a : AppState) (n : nat) : Sys :=
  {| app := a; requests := n; log := [] |}.

Definition is_invoke (ev : Event) : bool :=
  match ev with Invoke _ => true | _ => false end.

Definition is_call (ev : Event) : bool :=
  match ev with Invoke _ | Settle _ _ => true | _ => false end.

Definition is_update (ev : Event) : bool :=
  match ev with SetState _ => true | _ => false end.

(** The generator calls issued and not yet settled at the end of a log. *)
Fixpoint outstanding (evs : list Event) : Z :=
  match evs with
  | [] => 0
  | Invoke _ :: rest => outstanding rest + 1
  | Settle _ _ :: rest => outstanding rest - 1
  | _ :: rest => outstanding rest
  end.

(** The state updates of a log, in order. *)
Fixpoint updates (evs : list Event) : list Update :=
  match evs with
  | [] => []
  | SetState u :: rest => u :: updates rest
  | _ :: rest => updates rest
  end.

(** The protocol between the orchestrator and the generators, as an
    automaton over the log. *)
Inductive Phase : Type :=
| Start        (* nothing called yet *)
| Prompting    (* the Prompt Generator call is outstanding *)
| Scripted     (* the script is there, no call is outstanding *)
| Drawing      (* a Panel Image Generator call is outstanding *)
| Stopped.     (* a call has failed *)

Definition step (p : Phase) (ev : Event) : option Phase :=
  match ev, p with
  | Invoke PromptGenerator, Start => Some Prompting
  | Settle PromptGenerator true, Prompting => Some Scripted
  | Settle PromptGenerator false, Prompting => Some Stopped
  | Invoke PanelImageGenerator, Scripted => Some Drawing
  | Settle PanelImageGenerator true, Drawing => Some Scripted
  | Settle PanelImageGenerator false, Drawing => Some Stopped
  | Invoke _, _ => None
  | Settle _ _, _ => None
  | _, _ => Some p
  end.

Fixpoint run_phase (p : Phase) (evs : list Event) : option Phase :=
  match evs with
  | [] => Some p
  | ev :: rest =>
      match step p ev with
      | Some q => run_phase q rest
      | None => None
      end
  end.

Definition busy (p : Phase) : Z :=
  match p with Prompting | Drawing => 1 | _ => 0 end.

(** ** Failures *)

Definition fails_with {A} (k : ErrorKind) (r : Exn + A) : Prop :=
  exists e, r = inl e /\ origin e = k.

Definition api_key_set (w : World) : Prop :=
  exists c k, API_KEY w = Some (String c k).

(** The reply of the text model to the request of [generateComicPrompts]
    made in state [s]. *)
Definition script_reply (w : World) (s : Sys) (imageBase64 mimeType : string)
    (panelCount : Z) : string + GenerateContentResponse :=
  text_model w (requests s) imageBase64 mimeType (comic_instruction panelCount).

(** The reply carries no text: the field is missing, or blank once trimmed. *)
Definition no_text (response : GenerateContentResponse) : Prop :=
  match text response with
  | None => True
  | Some t => trim t = ""
  end.

(** ** The script *)

(** Modelled from the spec: [COMIC_PANEL_SCHEMA] of [types.ts] is not among
    the sources; the script-generation request asks for a JSON array of
    objects, each with [panelNumber] (int), [imagePrompt] (string) and
    [caption] (string). *)
Definition entry_matches_schema (v : JSValue) : bool :=
  match v with
  | JObj fields =>
      match assoc "panelNumber" fields, assoc "imagePrompt" fields,
            assoc "caption" fields with
      | JNum _, JStr _, JStr _ => true
      | _, _, _ => false
      end
  | _ => false
  end.

Definition matches_schema (v : JSValue) : bool :=
  match v with
  | JArr entries => forallb entry_matches_schema entries
  | _ => false
  end.

(** The text is valid JSON matching the schema. *)
Definition valid_script_text (w : World) (jsonStr : string) : bool :=
  match JSON_parse w jsonStr with
  | inr v => matches_schema v
  | inl _ => false
  end.

(** The words of a text: the maximal runs of characters other than white
    space. *)
Fixpoint count_words (in_word : bool) (l : list string) : nat :=
  match l with
  | [] => 0
  | ch :: rest =>
      if is_white_space ch then count_words false rest
      else if in_word then count_words true rest
      else S (count_words true rest)
  end.

Definition word_count (s : string) : nat :=
  count_words false (code_points s).

Definition panel_number (entry : JSValue) : Z :=
  match entry with
  | JObj fields => match assoc "panelNumber" fields with JNum k => k | _ => 0 end
  | _ => 0
  end.

Definition entry_within_limits (entry : JSValue) : bool :=
  match entry with
  | JObj fields =>
      match assoc "imagePrompt" fields, assoc "caption" fields with
      | JStr d, JStr c => (word_count d <=? 50)%nat && (word_count c <=? 15)%nat
      | _, _ => false
      end
  | _ => false
  end.

Fixpoint no_duplicates (l : list Z) : bool :=
  match l with
  | [] => true
  | k :: rest => negb (existsb (Z.eqb k) rest) && no_duplicates rest
  end.

(** The numbers grow from each one to the next. *)
Fixpoint strictly_increasing (l : list Z) : bool :=
  match l with
  | a :: rest =>
      match rest with
      | b :: _ => (a <? b) && strictly_increasing rest
      | [] => true
      end
  | [] => true
  end.

(** The script the spec promises for [n] panels: [n] entries, panel numbers
    forming the set 1..n without duplicates, each entry within its limits. *)
Definition well_formed_script (n : Z) (v : JSValue) : bool :=
  match v with
  | JArr entries =>
      let numbers := map panel_number entries in
      (Z.of_nat (length entries) =? n)
      && forallb (fun k => (1 <=? k) && (k <=? n)) numbers
      && forallb (fun k => existsb (Z.eqb k) numbers)
                 (map Z.of_nat (seq 1 (Z.to_nat n)))
      && no_duplicates numbers
      && forallb entry_within_limits entries
  | _ => false
  end.

(** ** The strip *)

(** The left edge of the slot of panel [i] (from 0). *)
Definition slot_x (i : nat) : Z :=
  COMIC_PADDING + Z.of_nat i * (PANEL_WIDTH + COMIC_PADDING).

(** The caption band lies under the illustration. *)
Definition band_top : Z := COMIC_PADDING + PANEL_HEIGHT.
Definition band_bottom : Z := COMIC_PADDING + PANEL_HEIGHT + CAPTION_HEIGHT.

(** The size in pixels a font string starts with: 20 for ["20px Arial"]. *)
Fixpoint leading_digits (acc : Z) (l : list ascii) : Z :=
  match l with
  | c :: rest =>
      let n := nat_of_ascii c in
      if ((48 <=? n) && (n <=? 57))%nat
      then leading_digits (10 * acc + Z.of_nat (n - 48)) rest
      else acc
  | [] => acc
  end.

Definition font_size_px (font : string) : Z :=
  leading_digits 0 (list_ascii_of_string font).

(** The drawing of the caption of a panel whose slot starts at [x]. *)
Definition caption_op (x : Z) (panel : ComicPanel) : DrawOp :=
  FillText "#333" "20px Arial" "center" "alphabetic"
           (to_string (caption panel))
           (x + PANEL_WIDTH / 2)
           (COMIC_PADDING + PANEL_HEIGHT + CAPTION_HEIGHT / 2 + 10).

(** The fallback box and its label. *)
Definition fallback_ops (x : Z) : list DrawOp :=
  [FillRect "#e0e0e0" x COMIC_PADDING PANEL_WIDTH PANEL_HEIGHT;
   FillText "#666" "20px Arial" "center" "alphabetic" "Error cargando imagen"
            (x + PANEL_WIDTH / 2) (COMIC_PADDING + PANEL_HEIGHT / 2)].

(** What the spec asks slot [i] to hold, for the loads numbered from [t]. *)
Definition expected_slot (w : World) (t : nat) (i : nat) (panel : ComicPanel)
    : list DrawOp :=
  match load_image w (t + i) (panel_src panel) with
  | Some img =>
      [DrawImage img (slot_x i) COMIC_PADDING PANEL_WIDTH PANEL_HEIGHT;
       caption_op (slot_x i) panel]
  | None => fallback_ops (slot_x i) ++ [caption_op (slot_x i) panel]
  end.

(** The context the panels are drawn with. *)
Definition stitch_context : Context2D :=
  {| fillStyle := "#333"; font := "20px Arial";
     textAlign := "center"; textBaseline := "alphabetic" |}.

(** Every panel of the list has illustration bytes, and they decode. *)
Definition fully_resolved (w : World) (panels : list ComicPanel) : Prop :=
  Forall (fun panel =>
            truthy (imageBase64 panel) = true
            /\ is_Some (decode_image w (to_string (imageBase64 panel))))
         panels.

(** Events that are neither generator calls nor state updates. *)
Definition quiet (evs : list Event) : Prop :=
  Forall (fun ev => is_call ev = false /\ is_update ev = false) evs.

(** The state and the log after the four updates that open a run. *)
Definition opened (s : Sys) : Sys :=
  {| app := apply_update (SetComicDownloadDataUrl None)
              (apply_update (SetComicPanels [])
                 (apply_update (SetError None)
                    (apply_update (SetLoading true) (app s))));
     requests := requests s;
     log := (log s ++ [SetState (SetLoading true); SetState (SetError None);
                      SetState (SetComicPanels []);
                      SetState (SetComicDownloadDataUrl None)])%list |}.

(** The state a failed run ends in, when it started from [a] and surfaced
    [msg]. *)
Definition failed_state (a : AppState) (msg : string) : AppState :=
  {| view := view a; uploadedImage := uploadedImage a;
     uploadedImageMimeType := uploadedImageMimeType a;
     comicPanels := []; comicDownloadDataUrl := None;
     loading := false; error := Some msg |}.

(** The error [generateComicPrompts] rethrows for a failure of kind [k] with
    message [m]. *)
Definition wrap_prompt_error (k : ErrorKind) (m : string) : Exn :=
  mkExn k ("Failed to generate comic prompts: " ++ m).

(** The size of the strip of [n] panels. *)
Definition strip_width (n : Z) : Z :=
  n * PANEL_WIDTH + (n - 1) * COMIC_PADDING + 2 * COMIC_PADDING.

Definition strip_height : Z :=
  PANEL_HEIGHT + CAPTION_HEIGHT + 2 * COMIC_PADDING.

(** The strip the spec describes for a panel list: the background, then the
    slots in the order of the list. *)
Definition expected_strip (w : World) (t : nat) (panels : list ComicPanel)
    : Canvas :=
  let n := Z.of_nat (length panels) in
  {| width := strip_width n; height := strip_height; has_2d := true;
     ctx := stitch_context;
     bitmap := FillRect "#f9fafb" 0 0 (strip_width n) strip_height
               :: concat (imap (expected_slot w t) panels) |}.

(** * Example worlds *)

Definition sample_image : ImageData :=
  {| naturalWidth := 1024; naturalHeight := 1024; pixels := [255; 128; 0] |}.

Definition image_reply (payload : string) : GenerateContentResponse :=
  {| text := None;
     candidates :=
       Some [{| content :=
                  Some {| parts :=
                            Some [{| inlineData := None |};
                                  {| inlineData :=
                                       Some {| data := JStr payload;
                                               mimeType := JStr "image/png" |} |}]
                       |} |}] |}.

Definition script_entry (n : Z) (description cap : string) : JSValue :=
  JObj [("panelNumber", JNum n); ("imagePrompt", JStr description);
        ("caption", JStr cap)].

Definition sample_script : JSValue :=
  JArr [script_entry 1 "A kitten finds a red kite" "A kitten finds a kite.";
        script_entry 2 "The kite lifts the kitten" "Up it goes!";
        script_entry 3 "The kitten waves at birds" "Hello, birds!";
        script_entry 4 "The kitten lands at home" "Home again."].

(** The JSON text of a value (for strings without quotes or backslashes). *)
Definition dquote : string := String (ascii_of_nat 34) EmptyString.

Fixpoint json_text (v : JSValue) : string :=
  match v with
  | JUndefined | JNull => "null"
  | JBool true => "true"
  | JBool false => "false"
  | JNum n => string_of_Z n
  | JStr s => dquote ++ s ++ dquote
  | JArr items =>
      "[" ++ (fix join (l : list JSValue) : string :=
                match l with
                | [] => ""
                | [x] => json_text x
                | x :: rest => json_text x ++ "," ++ join rest
                end) items ++ "]"
  | JObj fields =>
      "{" ++ (fix join (l : list (string * JSValue)) : string :=
                match l with
                | [] => ""
                | [(k, x)] => dquote ++ k ++ dquote ++ ":" ++ json_text x
                | (k, x) :: rest =>
                    dquote ++ k ++ dquote ++ ":" ++ json_text x ++ ","
                    ++ join rest
                end) fields ++ "}"
  end.

(** A [JSON.parse] that knows the text of one value and rejects the rest. *)
Definition parse_only (v : JSValue) (s : string) : string + JSValue :=
  if String.eqb s (json_text v) then inr v
  else inl "Unexpected token in JSON".

(** The reply of the text model in [fair_world]: the JSON text of
    [sample_script] between a space and a line feed. *)
Definition sample_reply : string :=
  " " ++ json_text sample_script ++ String (ascii_of_nat 10) EmptyString.

(** A world in which everything works: the text model answers with the text
    of [sample_script], every image request is answered, every payload
    ["QUJD"] decodes. *)
Definition fair_world : World :=
  {| API_KEY := Some "key";
     text_model := fun _ _ _ _ =>
       inr {| text := Some sample_reply; candidates := None |};
     image_model := fun _ _ => inr (image_reply "QUJD");
     JSON_parse := parse_only sample_script;
     decode_image := fun payload =>
       if String.eqb payload "QUJD" then Some sample_image else None;
     fetch_image := fun _ _ => None;
     png_encode := fun _ _ _ => Some "data:image/png;base64,iVBORw0KGgo=" |}.

(** As [fair_world], but the image request number 2 (the second panel) is
    rejected. *)
Definition second_panel_fails : World :=
  {| API_KEY := API_KEY fair_world;
     text_model := text_model fair_world;
     image_model := fun n p =>
       if (n =? 2)%nat then inl "503 Service Unavailable"
       else image_model fair_world n p;
     JSON_parse := JSON_parse fair_world;
     decode_image := decode_image fair_world;
     fetch_image := fetch_image fair_world;
     png_encode := png_encode fair_world |}.

(** A world whose text model answers [reply], parsed by [parse]. *)
Definition world_replying (reply : string) (parse : string -> string + JSValue)
    : World :=
  {| API_KEY := API_KEY fair_world;
     text_model := fun _ _ _ _ =>
       inr {| text := Some reply; candidates := None |};
     image_model := image_model fair_world;
     JSON_parse := parse;
     decode_image := decode_image fair_world;
     fetch_image := fetch_image fair_world;
     png_encode := png_encode fair_world |}.

(** The reply is cut short, and it stands between a byte order mark
    (U+FEFF) and a space on one side, a no-break space (U+00A0) and a line
    feed on the other: [JSON.parse] throws on the two characters that
    [trim] leaves. *)
Definition malformed_reply : string :=
  utf8 0xFEFF ++ " [{" ++ utf8 0xA0 ++ String (ascii_of_nat 10) EmptyString.

Definition malformed_world : World :=
  world_replying malformed_reply
    (fun s => if String.eqb s "[{" then inl "Unexpected end of JSON input"
              else inl "Unexpected token in JSON").

(** The reply is white space only: a no-break space, a line separator
    (U+2028) and a space. *)
Definition blank_world : World :=
  world_replying (utf8 0xA0 ++ utf8 0x2028 ++ " ") (parse_only sample_script).

(** The reply is the JSON text of [sample_script] after a byte order mark
    and before a paragraph separator (U+2029). *)
Definition marked_world : World :=
  world_replying (utf8 0xFEFF ++ json_text sample_script ++ utf8 0x2029)
    (parse_only sample_script).

(** The reply is the JSON text of a string of one character, the euro sign
    (U+20AC, three bytes in UTF-8). *)
Definition euro_world : World :=
  world_replying (json_text (JStr "€")) (parse_only (JStr "€")).

(** The reply is the JSON text of an empty object. *)
Definition object_world : World :=
  world_replying (json_text (JObj [])) (parse_only (JObj [])).

(** The reply is the JSON text of a script of two entries, numbered 1
    and 3. *)
Definition short_script : JSValue :=
  JArr [script_entry 1 "A kitten finds a red kite" "A kitten finds a kite.";
        script_entry 3 "The kitten waves at birds" "Hello, birds!"].

Definition short_world : World :=
  world_replying (json_text short_script) (parse_only short_script).

(** Four entries, numbered 1, 1, 3 and 4. *)
Definition repeated_entries : list JSValue :=
  [script_entry 1 "A kitten finds a red kite" "A kitten finds a kite.";
   script_entry 1 "The kite lifts the kitten" "Up it goes!";
   script_entry 3 "The kitten waves at birds" "Hello, birds!";
   script_entry 4 "The kitten lands at home" "Home again."].

Definition repeated_world : World :=
  world_replying (json_text (JArr repeated_entries))
    (parse_only (JArr repeated_entries)).

(** Four entries numbered 1 to 4; the image description of the second has
    51 words, the caption of the third has 16. *)
Definition long_description : string :=
  "A small grey kitten with a red scarf runs across a wide green meadow under a bright blue sky while a big red kite with a long yellow tail dances above the tall trees and three white birds watch from a wooden fence near the old stone house by the river".

Definition long_caption : string :=
  "The kitten waves at all the birds and says hello to each one of them today".

Definition wordy_entries : list JSValue :=
  [script_entry 1 "A kitten finds a red kite" "A kitten finds a kite.";
   script_entry 2 long_description "Up it goes!";
   script_entry 3 "The kitten waves at birds" long_caption;
   script_entry 4 "The kitten lands at home" "Home again."].

Definition wordy_world : World :=
  world_replying (json_text (JArr wordy_entries))
    (parse_only (JArr wordy_entries)).

(** The entries of [sample_script] with the first two exchanged: they are
    numbered 2, 1, 3 and 4 in the order of the list. *)
Definition swapped_entries : list JSValue :=
  [script_entry 2 "The kite lifts the kitten" "Up it goes!";
   script_entry 1 "A kitten finds a red kite" "A kitten finds a kite.";
   script_entry 3 "The kitten waves at birds" "Hello, birds!";
   script_entry 4 "The kitten lands at home" "Home again."].

Definition kite_image : ImageData :=
  {| naturalWidth := 1024; naturalHeight := 1024; pixels := [0; 128; 255] |}.

(** The service answers with [swapped_entries]; the image model draws the
    kite in the air (payload ["REVG"]) for the description of entry number 2
    and the usual picture for the others. *)
Definition swapped_world : World :=
  {| API_KEY := API_KEY fair_world;
     text_model := fun _ _ _ _ =>
       inr {| text := Some (json_text (JArr swapped_entries));
              candidates := None |};
     image_model := fun _ p =>
       if String.eqb (to_string p) "The kite lifts the kitten"
       then inr (image_reply "REVG") else inr (image_reply "QUJD");
     JSON_parse := parse_only (JArr swapped_entries);
     decode_image := fun payload =>
       if String.eqb payload "REVG" then Some kite_image
       else decode_image fair_world payload;
     fetch_image := fetch_image fair_world;
     png_encode := png_encode fair_world |}.

Definition ready_app : AppState :=
  {| view := PREVIEW;
     uploadedImage := Some {| base64 := "iVBORw0KGgo="; filename := "cat.png" |};
     uploadedImageMimeType := Some "image/png";
     comicPanels := [];
     comicDownloadDataUrl := None;
     loading := false;
     error := None |}.

Definition blank_canvas : Canvas :=
  {| width := 300; height := 150; has_2d := true;
     ctx := default_context; bitmap := [] |}.

Definition good_panel (cap : string) : ComicPanel :=
  {| caption := JStr cap; imageBase64 := JStr "QUJD" |}.

Definition bad_panel (cap : string) : ComicPanel :=
  {| caption := JStr cap; imageBase64 := JStr "!!" |}.

Definition four_panels : list ComicPanel :=
  [good_panel "A kitten finds a kite."; good_panel "Up it goes!";
   good_panel "Hello, birds!"; good_panel "Home again."].

Definition one_bad_panel : list ComicPanel :=
  [good_panel "A kitten finds a kite."; bad_panel "Up it goes!";
   good_panel "Hello, birds!"].

(** A world whose network answers every load with a different picture, as
    the placeholder service does. *)
Definition lottery_world : World :=
  {| API_KEY := API_KEY fair_world;
     text_model := text_model fair_world;
     image_model := image_model fair_world;
     JSON_parse := JSON_parse fair_world;
     decode_image := decode_image fair_world;
     fetch_image := fun t _ =>
       Some {| naturalWidth := 500; naturalHeight := 500;
               pixels := [Z.of_nat t] |};
     png_encode := png_encode fair_world |}.

Definition pending_panel : ComicPanel :=
  {| caption := JStr "Soon."; imageBase64 := JStr "" |}.

(** * The rest of the code *)

(** ** [services/geminiService]: the base64 helpers *)

(** A binary string, the argument of [btoa] and the result of [atob], is a
    string of octets: its characters have codes below 256 and are held one
    byte each. *)

(** The base64 alphabet, and the value of each of its characters. *)
Definition BASE64_ALPHABET : string :=
  "ABCDEFGHIJKLMNOPQRSTUVWXYZabcdefghijklmnopqrstuvwxyz0123456789+/".

Definition sextet_char (n : nat) : ascii :=
  nth n (list_ascii_of_string BASE64_ALPHABET) "A"%char.

Fixpoint index_of (c : ascii) (l : list ascii) : option nat :=
  match l with
  | [] => None
  | c' :: rest =>
      if Ascii.eqb c c' then Some 0%nat else option_map S (index_of c rest)
  end.

Definition char_sextet (c : ascii) : option nat :=
  index_of c (list_ascii_of_string BASE64_ALPHABET).

(** The sextets of a sequence of octets: four for each three octets, three
    for two octets left over, two for one. *)
Fixpoint sextets_of (l : list ascii) : list nat :=
  match l with
  | a :: b :: c :: rest =>
      let a := nat_of_ascii a in
      let b := nat_of_ascii b in
      let c := nat_of_ascii c in
      [a / 4; (a mod 4) * 16 + b / 16; (b mod 16) * 4 + c / 64; c mod 64]%nat
      ++ sextets_of rest
  | [a; b] =>
      let a := nat_of_ascii a in
      let b := nat_of_ascii b in
      [a / 4; (a mod 4) * 16 + b / 16; (b mod 16) * 4]%nat
  | [a] =>
      let a := nat_of_ascii a in
      [a / 4; (a mod 4) * 16]%nat
  | [] => []
  end.

(** [btoa], the browser's base64 encoding of a binary string: the characters
    of the sextets, padded with ["="] to a multiple of four.  (It throws on a
    character above U+00FF; a string of octets has none.) *)
Definition btoa (binary : string) : string :=
  let octets := list_ascii_of_string binary in
  string_of_list_ascii
    (map sextet_char (sextets_of octets)
     ++ repeat "="%char ((3 - length octets mod 3) mod 3)).

(** The white space [atob] skips: TAB, LF, FF, CR and SPACE. *)
Definition is_base64_space (c : ascii) : bool :=
  let n := nat_of_ascii c in
  ((n =? 9) || (n =? 10) || (n =? 12) || (n =? 13) || (n =? 32))%nat.

(** One or two ["="] at the end are removed. *)
Definition strip_padding (l : list ascii) : list ascii :=
  match rev l with
  | e1 :: e2 :: r =>
      if Ascii.eqb e1 "="
      then if Ascii.eqb e2 "=" then rev r else rev (e2 :: r)
      else l
  | [e1] => if Ascii.eqb e1 "=" then [] else l
  | [] => []
  end.

Fixpoint sextets_in (l : list ascii) : option (list nat) :=
  match l with
  | [] => Some []
  | c :: rest =>
      match char_sextet c, sextets_in rest with
      | Some n, Some ns => Some (n :: ns)
      | _, _ => None
      end
  end.

(** The octets of a sequence of sextets: three for each four sextets; the
    bits of an incomplete last group that do not fill an octet are dropped. *)
Fixpoint octets_of (l : list nat) : list ascii :=
  match l with
  | a :: b :: c :: d :: rest =>
      [ascii_of_nat (a * 4 + b / 16);
       ascii_of_nat ((b mod 16) * 16 + c / 4);
       ascii_of_nat ((c mod 4) * 64 + d)]
      ++ octets_of rest
  | [a; b; c] =>
      [ascii_of_nat (a * 4 + b / 16); ascii_of_nat ((b mod 16) * 16 + c / 4)]
  | [a; b] => [ascii_of_nat (a * 4 + b / 16)]
  | _ => []
  end.

(** [atob], the browser's base64 decoding: white space is skipped, padding
    is removed from a text whose length is a multiple of four, and the rest
    must be characters of the alphabet, not one more than a multiple of
    four; [None] is the [InvalidCharacterError] it throws otherwise. *)
Definition atob (encoded : string) : option string :=
  let l := filter (fun c => negb (is_base64_space c))
                  (list_ascii_of_string encoded) in
  let l := if (length l mod 4 =? 0)%nat then strip_padding l else l in
  if (length l mod 4 =? 1)%nat then None
  else match sextets_in l with
       | Some sextets => Some (string_of_list_ascii (octets_of sextets))
       | None => None
       end.

Inductive DOMException : Type := InvalidCharacterError.

(** [decode]: the octets of [atob(base64)], stored in a [Uint8Array]. *)
Definition decode (base64 : string) : DOMException + list Byte.byte :=
  match atob base64 with
  | None => inl InvalidCharacterError
  | Some binaryString =>
      inr (map byte_of_ascii (list_ascii_of_string binaryString))
  end.

(** [encode]: [btoa] of the string of the characters whose codes are the
    elements of the array. *)
Definition encode (bytes : list Byte.byte) : string :=
  let binary := string_of_list_ascii (map ascii_of_byte bytes) in
  btoa binary.

(** ** [App]: the other handlers *)

(** [handleImageUpload] *)
Definition handleImageUpload (base64 filename mimeType : string)
    (a : AppState) : AppState :=
  {| view := PREVIEW;
     uploadedImage := Some {| base64 := base64; filename := filename |};
     uploadedImageMimeType := Some mimeType;
     comicPanels := comicPanels a;
     comicDownloadDataUrl := comicDownloadDataUrl a;
     loading := loading a;
     error := None |}.

(** [handleNewImage] *)
Definition handleNewImage (a : AppState) : AppState :=
  {| view := UPLOAD;
     uploadedImage := None;
     uploadedImageMimeType := None;
     comicPanels := [];
     comicDownloadDataUrl := None;
     loading := false;
     error := None |}.

(** The generator calls of a log, and the requests a call sends in a world:
    one when the key is set, none when it is not. *)
Definition invocations (evs : list Event) : nat :=
  length (filter (fun ev => is_invoke ev = true) evs).

Definition requests_per_call (w : World) : nat :=
  match API_KEY w with
  | Some (String _ _) => 1
  | _ => 0
  end.

(** ** [components/ImageUploader] and [components/ImageViewer] *)

(** [s.split(sep)] for a separator of one character. *)
Fixpoint split (sep : ascii) (s : string) : list string :=
  match s with
  | EmptyString => [EmptyString]
  | String c rest =>
      if Ascii.eqb c sep then EmptyString :: split sep rest
      else match split sep rest with
           | piece :: pieces => String c piece :: pieces
           | [] => [String c EmptyString]
           end
  end.

Record File : Type := { name : string }.

(** [handleSubmit] of [ImageUploader]: the arguments [onImageUpload] is
    called with, if it is called; the second piece of the preview is
    [undefined] when the preview has no comma. *)
Definition handleSubmit (selectedFile : option File)
    (imagePreview : option string)
    : Exn + option (option string * string * string) :=
  match selectedFile, imagePreview with
  | Some file, Some (String c rest) =>
      let pieces := split "," (String c rest) in
      let mimePart := nth 0 pieces EmptyString in
      let base64Data := nth_error pieces 1 in
      match nth_error (split ":" mimePart) 1 with
      | None =>
          inl (mkExn TypeError
                 "Cannot read properties of undefined (reading 'split')")
      | Some afterColon =>
          let mimeType := nth 0 (split ";" afterColon) EmptyString in
          inr (Some (base64Data, name file, mimeType))
      end
  | _, _ => inr None
  end.

(** [imageUrl] of [ImageViewer]. *)
Definition imageUrl (imageBase64 mimeType : string) : string :=
  "data:" ++ mimeType ++ ";base64," ++ imageBase64.

(** The [src] of the image [ImageViewer] shows. *)
Definition ImageViewer_src (imageBase64 mimeType : string) : string :=
  match imageBase64 with
  | EmptyString => PLACEHOLDER_IMAGE_URL
  | _ => imageUrl imageBase64 mimeType
  end.

(** [handleDownload] of [ImageViewer]: the [href] and the [download] name
    of the link it clicks. *)
Definition ImageViewer_handleDownload (imageBase64 filename mimeType : string)
    : string * string :=
  (imageUrl imageBase64 mimeType, filename).

(** A string has no occurrence of a character. *)
Definition lacks (c : ascii) (s : string) : Prop :=
  ~ In c (list_ascii_of_string s).

(** ** [components/ComicStrip]: the download button and the canvas *)

(** [s.replace(/\s/g, '_')]: every character of the class [\s] becomes an
    underscore, the others stay. *)
Definition underscore_for_space (ch : string) : string :=
  if is_white_space ch then "_" else ch.

Definition replace_spaces (s : string) : string :=
  join (map underscore_for_space (code_points s)).

(** [handleDownload] of [ComicStrip]: the [href] and the [download] name of
    the link it clicks, if it does. *)
Definition ComicStrip_handleDownload (comicTitle : string)
    (downloadLink : option string) : option (string * string) :=
  match downloadLink with
  | Some (String c rest) =>
      Some (String c rest, replace_spaces comicTitle ++ "_comic.png")
  | _ => None
  end.

(** Whether the markup [ComicStrip] returns holds the hidden canvas: it is
    in the branch for [!loading], under [panels.length > 0]. *)
Definition canvas_rendered (panels : list ComicPanel) (loading : bool) : bool :=
  if loading then false else (0 <? length panels)%nat.

(** [hiddenCanvasRef.current] when the effect runs, for the canvas element
    [element] the markup stands for. *)
Definition mounted_canvas (element : Canvas) (panels : list ComicPanel)
    (loading : bool) : option Canvas :=
  if canvas_rendered panels loading then Some element else None.

(** ** Measures of a bitmap *)



(** The texts written in the colour of the captions, in order. *)
Fixpoint caption_texts (ops : list DrawOp) : list string :=
  match ops with
  | [] => []
  | FillText style _ _ _ txt _ _ :: rest =>
      if String.eqb style "#333" then txt :: caption_texts rest
      else caption_texts rest
  | _ :: rest => caption_texts rest
  end.

(** The illustrations drawn and the fallback boxes filled. *)
Fixpoint illustrations (ops : list DrawOp) : nat :=
  match ops with
  | [] => 0
  | DrawImage _ _ _ _ _ :: rest => S (illustrations rest)
  | _ :: rest => illustrations rest
  end.

Fixpoint fallback_boxes (ops : list DrawOp) : nat :=
  match ops with
  | [] => 0
  | FillRect style _ _ _ _ :: rest =>
      if String.eqb style "#e0e0e0" then S (fallback_boxes rest)
      else fallback_boxes rest
  | _ :: rest => fallback_boxes rest
  end.

(** The panels of a list whose image loads, for the loads numbered from
    [t]. *)
Fixpoint loaded_panels (w : World) (t : nat) (panels : list ComicPanel)
    : nat :=
  match panels with
  | [] => 0
  | panel :: rest =>
      (match load_image w t (panel_src panel) with Some _ => 1 | None => 0 end
       + loaded_panels w (S t) rest)%nat
  end.

(** ** The panel numbers on a strip *)

(** The number of the first entry of a script that carries the caption. *)
Fixpoint number_of_caption (entries : list JSValue) (txt : string)
    : option Z :=
  match entries with
  | [] => None
  | entry :: rest =>
      match get_prop entry "caption" with
      | inr cap =>
          if String.eqb (to_string cap) txt then Some (panel_number entry)
          else number_of_caption rest txt
      | inl _ => number_of_caption rest txt
      end
  end.

(** The panel numbers of the captions on a bitmap, in the order in which
    they were drawn, which is from the left. *)
Definition drawn_numbers (entries : list JSValue) (ops : list DrawOp)
    : list (option Z) :=
  map (number_of_caption entries) (caption_texts ops).

(** ** The panel of a script entry *)

(** The panel holds the caption of the entry and the first inline data of
    the reply to the request, numbered [request], for the image prompt of
    the entry. *)
Definition panel_of_entry (w : World) (request : nat) (prompt : JSValue)
    (panel : ComicPanel) : Prop :=
  exists imagePrompt reply,
    get_prop prompt "imagePrompt" = inr imagePrompt
    /\ image_model w request imagePrompt = inr reply
    /\ first_inline_data (response_parts reply) = Some (imageBase64 panel)
    /\ get_prop prompt "caption" = inr (caption panel).

(** The reply of the text model is the JSON text of an empty list. *)
Definition empty_list_world : World :=
  world_replying (json_text (JArr [])) (parse_only (JArr [])).

(** No key is configured. *)
Definition keyless_world : World :=
  {| API_KEY := None;
     text_model := text_model fair_world;
     image_model := image_model fair_world;
     JSON_parse := JSON_parse fair_world;
     decode_image := decode_image fair_world;
     fetch_image := fetch_image fair_world;
     png_encode := png_encode fair_world |}.

(** The text model is out of reach. *)
Definition offline_world : World :=
  {| API_KEY := API_KEY fair_world;
     text_model := fun _ _ _ _ => inl "Failed to fetch";
     image_model := image_model fair_world;
     JSON_parse := JSON_parse fair_world;
     decode_image := decode_image fair_world;
     fetch_image := fetch_image fair_world;
     png_encode := png_encode fair_world |}.

(** * Properties *)

Local Open Scope list_scope.

(** ** Strings *)

Lemma code_points_cons c rest :
  code_points (String c rest) =
  match code_points rest with
  | ch :: chs =>
      if starts_with_continuation ch then String c ch :: chs
      else String c EmptyString :: ch :: chs
  | [] => [String c EmptyString]
  end.
Proof. reflexivity. Qed.

(** The first character of a string starts with its first byte. *)
Lemma code_points_head c rest :
  exists tl chs, code_points (String c rest) = String c tl :: chs.
Proof.
  rewrite code_points_cons. destruct (code_points rest) as [|ch chs]; [eauto|].
  destruct (starts_with_continuation ch); eauto.
Qed.

Lemma code_points_not_nil c rest : code_points (String c rest) <> [].
Proof. destruct (code_points_head c rest) as (tl & chs & ->). discriminate. Qed.

(** Cutting a string into characters loses nothing. *)
Lemma join_code_points s : join (code_points s) = s.
Proof.
  induction s as [|c rest IH]; [reflexivity|]. rewrite code_points_cons.
  destruct (code_points rest) as [|ch chs].
  - cbn in *. now rewrite <- IH.
  - destruct (starts_with_continuation ch); cbn in *; now rewrite IH.
Qed.

Lemma join_app l1 l2 : join (l1 ++ l2) = (join l1 ++ join l2)%string.
Proof.
  induction l1 as [|ch l1 IH]; [reflexivity|]. cbn [join fold_right Datatypes.app].
  fold (join (l1 ++ l2)). fold (join l1). rewrite IH.
  induction ch as [|c ch IHc]; [reflexivity|]. cbn. now rewrite IHc.
Qed.

Lemma grouped_code_points s : grouped (code_points s).
Proof.
  induction s as [|c rest [Hshape Htail]]; [split; constructor|].
  rewrite code_points_cons. destruct (code_points rest) as [|ch chs].
  - split; [repeat constructor | constructor].
  - cbn [tail] in Htail. inversion Hshape as [|? ? Hch Hchs]; subst.
    destruct (starts_with_continuation ch) eqn:Hstart.
    + split; [|exact Htail]. constructor; [|exact Hchs].
      destruct ch as [|b tl]; [discriminate|]. cbn in *. now rewrite Hstart.
    + split; [repeat constructor; assumption|]. cbn [tail].
      constructor; assumption.
Qed.

(** A byte, the bytes that continue it and a string that starts with a
    first byte: the character comes off whole. *)
Lemma code_points_char tl : forall b s,
  all_continuation tl = true -> starts_with_continuation s = false ->
  code_points (String b (tl ++ s)) = String b tl :: code_points s.
Proof.
  induction tl as [|t tl IH]; intros b s Hall Hs.
  - cbn [String.append]. rewrite code_points_cons.
    destruct s as [|c r]; [reflexivity|].
    destruct (code_points_head c r) as (tl' & chs & ->).
    cbn in Hs. cbn [starts_with_continuation]. now rewrite Hs.
  - cbn in Hall. apply andb_prop in Hall as [Ht Hall].
    cbn [String.append]. rewrite code_points_cons, (IH t s Hall Hs).
    cbn [starts_with_continuation]. now rewrite Ht.
Qed.

Lemma code_points_join chars : grouped chars -> code_points (join chars) = chars.
Proof.
  induction chars as [|ch chars IH]; intros [Hshape Htail]; [reflexivity|].
  inversion Hshape as [|? ? Hch Hchs]; subst. cbn [tail] in Htail.
  destruct ch as [|b tl]; [discriminate|]. cbn in Hch.
  cbn [join fold_right String.append]. fold (join chars).
  rewrite code_points_char; [f_equal; apply IH; split; [exact Hchs|] | exact Hch |].
  - destruct Htail; [constructor | assumption].
  - destruct Htail as [|ch' chars' Hch' _]; [reflexivity|].
    destruct ch' as [|b' tl']; [inversion Hchs; discriminate|]. exact Hch'.
Qed.

Lemma code_points_app s1 s2 :
  starts_with_continuation s2 = false ->
  code_points (s1 ++ s2)%string = code_points s1 ++ code_points s2.
Proof.
  intros Hs2. rewrite <- (join_code_points s1) at 1.
  rewrite <- (join_code_points s2) at 1. rewrite <- join_app.
  apply code_points_join.
  destruct (grouped_code_points s1) as [Hshape1 Htail1].
  destruct (grouped_code_points s2) as [Hshape2 Htail2].
  assert (Hall2 : Forall (fun ch => starts_with_continuation ch = false)
                         (code_points s2)).
  { destruct s2 as [|c r]; [constructor|].
    destruct (code_points_head c r) as (tl & chs & Heq). rewrite Heq in *.
    constructor; [exact Hs2 | exact Htail2]. }
  split; [apply Forall_app; split; assumption|].
  destruct (code_points s1) as [|ch chs]; [exact Htail2|].
  cbn [tail Datatypes.app] in *. apply Forall_app. split; assumption.
Qed.

Lemma white_space_is_one_unit ch :
  is_white_space ch = true -> code_units ch = 1%nat.
Proof.
  unfold is_white_space, WHITE_SPACE. cbn [existsb].
  rewrite !orb_true_iff. intros H.
  repeat destruct H as [H|H]; try discriminate;
    apply String.eqb_eq in H; subst ch; reflexivity.
Qed.

(** ** Logs *)

Lemma run_phase_app p evs1 evs2 :
  run_phase p (evs1 ++ evs2) =
  match run_phase p evs1 with
  | Some q => run_phase q evs2
  | None => None
  end.
Proof.
  revert p. induction evs1 as [|ev evs1 IH]; intros p; simpl; [reflexivity|].
  destruct (step p ev); [apply IH | reflexivity].
Qed.

Lemma step_quiet p ev : is_call ev = false -> step p ev = Some p.
Proof. destruct ev, p; simpl; congruence. Qed.

Lemma run_phase_quiet p evs :
  Forall (fun ev => is_call ev = false) evs -> run_phase p evs = Some p.
Proof.
  induction 1 as [|ev evs Hev _ IH]; simpl; [reflexivity|].
  now rewrite step_quiet.
Qed.

Lemma run_phase_stopped evs q :
  run_phase Stopped evs = Some q ->
  q = Stopped /\ Forall (fun ev => is_call ev = false) evs.
Proof.
  induction evs as [|ev evs IH]; simpl.
  - intros [= <-]. split; [reflexivity | constructor].
  - destruct ev as [g|g ok|l e|u]; simpl; try destruct g; try destruct ok;
      try discriminate; intros H; destruct (IH H) as [-> HF];
      (split; [reflexivity | constructor; [reflexivity | exact HF]]).
Qed.

Lemma step_failure p g q : step p (Settle g false) = Some q -> q = Stopped.
Proof. destruct p, g; simpl; congruence. Qed.

Lemma run_phase_outstanding p evs q :
  run_phase p evs = Some q -> busy p + outstanding evs = busy q.
Proof.
  revert p. induction evs as [|ev evs IH]; intros p; simpl.
  - intros [= <-]. lia.
  - destruct (step p ev) as [p1|] eqn:Hs; [|discriminate].
    intros H. apply IH in H.
    destruct ev as [g|g ok|l e|u], p; simpl in Hs; try destruct g;
      try destruct ok; try discriminate; injection Hs as <-; simpl in *; lia.
Qed.

Lemma busy_range p : 0 <= busy p <= 1.
Proof. destruct p; simpl; lia. Qed.

Lemma run_phase_prefix p pre post q :
  run_phase p (pre ++ post) = Some q ->
  exists m, run_phase p pre = Some m /\ run_phase m post = Some q.
Proof.
  rewrite run_phase_app. destruct (run_phase p pre) as [m|]; [|discriminate].
  intros H. now exists m.
Qed.

(** Once the script is there, the Prompt Generator has settled well. *)
Lemma run_phase_scripted p evs q :
  run_phase p evs = Some q ->
  q = Scripted \/ q = Drawing ->
  (p = Scripted \/ p = Drawing) \/ In (Settle PromptGenerator true) evs.
Proof.
  revert p. induction evs as [|ev evs IH]; intros p; simpl.
  - intros [= <-]. now left.
  - destruct (step p ev) as [p1|] eqn:Hs; [|discriminate].
    intros H Hq. destruct (IH _ H Hq) as [Hp1|Hin]; [|now right; right].
    destruct ev as [g|g ok|l e|u], p; simpl in Hs; try destruct g;
      try destruct ok; try discriminate; injection Hs as <-;
      destruct Hp1 as [Hp1|Hp1]; try discriminate;
      (now left; auto) || (right; left; reflexivity) || auto.
Qed.

(** ** The generators *)

Ltac unfold_monad :=
  unfold async, getGenerativeAI, try_catch, try_finally, request,
    console_error, set_state, get_app, lift, bind, emit, throw, ret.

Ltac split_cases :=
  repeat match goal with
         | |- context [match ?x with _ => _ end] =>
             lazymatch x with
             | context [match _ with _ => _ end] => fail
             | _ => destruct x eqn:?; simpl
             end
         end.

Ltac close_log :=
  split; [reflexivity|];
  first [ exists []; split; [constructor | rewrite <- ?app_assoc; reflexivity]
        | eexists [_]; split; [| rewrite <- ?app_assoc; reflexivity];
          repeat constructor ].

Lemma generateComicPrompts_log w imageBase64 mimeType panelCount s :
  let R := generateComicPrompts w imageBase64 mimeType panelCount s in
  app (snd R) = app s /\
  exists mid, quiet mid /\
    log (snd R) =
    log s ++ Invoke PromptGenerator :: mid
          ++ [Settle PromptGenerator (succeeded (fst R))].
Proof.
  unfold generateComicPrompts. unfold_monad. simpl.
  split_cases; close_log.
Qed.

Lemma generateImageFromPrompt_log w imagePrompt s :
  let R := generateImageFromPrompt w imagePrompt s in
  app (snd R) = app s /\
  exists mid, quiet mid /\
    log (snd R) =
    log s ++ Invoke PanelImageGenerator :: mid
          ++ [Settle PanelImageGenerator (succeeded (fst R))].
Proof.
  unfold generateImageFromPrompt. unfold_monad. simpl.
  split_cases; close_log.
Qed.

Lemma updates_app evs1 evs2 : updates (evs1 ++ evs2) = updates evs1 ++ updates evs2.
Proof.
  induction evs1 as [|ev evs1 IH]; simpl; [reflexivity|].
  destruct ev; simpl; now rewrite ?IH.
Qed.

Lemma quiet_updates mid : quiet mid -> updates mid = [].
Proof.
  induction 1 as [|ev mid [_ Hu] _ IH]; simpl; [reflexivity|].
  destruct ev; simpl in *; congruence.
Qed.

Lemma quiet_run_phase mid p : quiet mid -> run_phase p mid = Some p.
Proof.
  intros H. apply run_phase_quiet.
  eapply Forall_impl; [exact H|]. now intros ev [Hc _].
Qed.

(** The log of one generator call that starts in phase [p] and leaves the
    automaton in phase [q]. *)
Lemma call_block g mid ok :
  quiet mid ->
  updates (Invoke g :: mid ++ [Settle g ok]) = [] /\
  forall p p1 q,
    step p (Invoke g) = Some p1 -> step p1 (Settle g ok) = Some q ->
    run_phase p (Invoke g :: mid ++ [Settle g ok]) = Some q.
Proof.
  intros Hq. split.
  - simpl. rewrite updates_app, (quiet_updates _ Hq). reflexivity.
  - intros p p1 q H1 H2. cbn [run_phase]. rewrite H1, run_phase_app.
    rewrite (quiet_run_phase _ _ Hq). cbn [run_phase]. now rewrite H2.
Qed.

(** ** The loop over the script *)

Lemma generate_panels_cons w prompt rest acc s :
  generate_panels w (prompt :: rest) acc s =
  match get_prop prompt "imagePrompt" with
  | inl e => (inl e, s)
  | inr imagePrompt =>
      match generateImageFromPrompt w imagePrompt s with
      | (inl e, s1) => (inl e, s1)
      | (inr image, s1) =>
          match get_prop prompt "caption" with
          | inl e => (inl e, s1)
          | inr cap =>
              generate_panels w rest
                (acc ++ [{| caption := cap; imageBase64 := image |}]) s1
          end
      end
  end.
Proof.
  cbn [generate_panels]. unfold bind, lift.
  destruct (get_prop prompt "imagePrompt"); [reflexivity|].
  destruct (generateImageFromPrompt w j s) as [[e|image] s1]; [reflexivity|].
  destruct (get_prop prompt "caption"); reflexivity.
Qed.

Lemma generate_panels_log w prompts : forall acc s,
  let R := generate_panels w prompts acc s in
  app (snd R) = app s /\
  exists evs q,
    log (snd R) = log s ++ evs /\ updates evs = [] /\
    run_phase Scripted evs = Some q /\
    match fst R with
    | inr _ => q = Scripted
    | inl _ => q = Scripted \/ q = Stopped
    end.
Proof.
  induction prompts as [|prompt rest IH]; intros acc s.
  - simpl. split; [reflexivity|]. exists [], Scripted.
    rewrite app_nil_r. auto.
  - cbv zeta. rewrite generate_panels_cons.
    destruct (get_prop prompt "imagePrompt") as [e|imagePrompt].
    { simpl. split; [reflexivity|]. exists [], Scripted.
      rewrite app_nil_r. auto. }
    pose proof (generateImageFromPrompt_log w imagePrompt s) as Hcall.
    destruct (generateImageFromPrompt w imagePrompt s) as [r1 s1].
    cbv zeta in Hcall. cbn [fst snd] in Hcall.
    destruct Hcall as (Happ & mid & Hmid & Hlog).
    destruct (call_block PanelImageGenerator mid (succeeded r1) Hmid)
      as [Hupd Hrun].
    destruct r1 as [e|image]; cbn [succeeded] in *.
    { simpl. split; [exact Happ|]. eexists _, Stopped.
      split; [exact Hlog|]. split; [exact Hupd|].
      split; [|now right]. now apply (Hrun Scripted Drawing Stopped). }
    specialize (Hrun Scripted Drawing Scripted eq_refl eq_refl).
    destruct (get_prop prompt "caption") as [e|cap].
    { simpl. split; [exact Happ|]. eexists _, Scripted.
      split; [exact Hlog|]. split; [exact Hupd|]. split; [exact Hrun|].
      now left. }
    specialize (IH (acc ++ [{| caption := cap; imageBase64 := image |}]) s1).
    cbv zeta in IH. destruct IH as (Happ' & evs & q & Hlog' & Hupd' & Hrun' & Hres).
    split; [congruence|].
    exists ((Invoke PanelImageGenerator :: mid
             ++ [Settle PanelImageGenerator true]) ++ evs), q.
    split; [rewrite Hlog', Hlog, <- app_assoc; reflexivity|].
    split; [rewrite updates_app, Hupd', Hupd; reflexivity|].
    split; [|exact Hres].
    rewrite run_phase_app. simpl in Hrun. simpl. rewrite Hrun. exact Hrun'.
Qed.

(** A loop that completes has pushed one panel per script entry, in the
    order of the script, with the caption of the entry. *)
Lemma generate_panels_order w prompts : forall acc s l,
  fst (generate_panels w prompts acc s) = inr l ->
  exists panels,
    l = acc ++ panels /\
    Forall2 (fun prompt panel => get_prop prompt "caption" = inr (caption panel))
            prompts panels.
Proof.
  induction prompts as [|prompt rest IH]; intros acc s l.
  - simpl. intros [= <-]. exists []. now rewrite app_nil_r.
  - rewrite generate_panels_cons.
    destruct (get_prop prompt "imagePrompt") as [e|imagePrompt];
      [discriminate|].
    destruct (generateImageFromPrompt w imagePrompt s) as [[e|image] s1];
      [discriminate|].
    destruct (get_prop prompt "caption") as [e|cap] eqn:Hcap; [discriminate|].
    intros H. apply IH in H as (panels & -> & Hall).
    exists ({| caption := cap; imageBase64 := image |} :: panels).
    split; [now rewrite <- app_assoc|]. now constructor.
Qed.

(** ** The run *)

Lemma try_block_eq w image mime s :
  try_block w image mime s =
  match generateComicPrompts w (base64 image) mime DEFAULT_PANEL_COUNT s with
  | (inl e, s0) => (inl e, s0)
  | (inr panelPrompts, s0) =>
      if no_prompts panelPrompts
      then (inl (mkExn EmptyScriptError
                   "El modelo no pudo generar las descripciones para las viñetas del cómic."),
            s0)
      else
        match iterate "panelPrompts" panelPrompts with
        | inl e => (inl e, s0)
        | inr prompts =>
            match generate_panels w prompts [] s0 with
            | (inl e, s2) => (inl e, s2)
            | (inr generatedPanels, s2) =>
                (inr tt,
                 {| app := apply_update (SetView COMIC)
                             (apply_update (SetComicPanels generatedPanels)
                                (app s2));
                    requests := requests s2;
                    log := (log s2 ++ [SetState (SetComicPanels generatedPanels)])
                           ++ [SetState (SetView COMIC)] |})
            end
        end
  end.
Proof.
  unfold try_block, bind, lift, throw, ret, set_state.
  destruct (generateComicPrompts w (base64 image) mime DEFAULT_PANEL_COUNT s)
    as [[e|panelPrompts] s0]; [reflexivity|].
  destruct (no_prompts panelPrompts); [reflexivity|].
  destruct (iterate "panelPrompts" panelPrompts) as [e|prompts]; [reflexivity|].
  destruct (generate_panels w prompts [] s0) as [[e|l] s2]; reflexivity.
Qed.

Lemma try_block_log w image mime s :
  let R := try_block w image mime s in
  exists evs q,
    log (snd R) = log s ++ evs /\ run_phase Start evs = Some q /\ busy q = 0 /\
    match fst R with
    | inl _ => app (snd R) = app s /\ updates evs = []
    | inr _ =>
        q = Scripted /\
        exists l, updates evs = [SetComicPanels l; SetView COMIC] /\
                  app (snd R) =
                  apply_update (SetView COMIC)
                    (apply_update (SetComicPanels l) (app s))
    end.
Proof.
  intros R. subst R. rewrite try_block_eq.
  pose proof (generateComicPrompts_log w (base64 image) mime
                DEFAULT_PANEL_COUNT s) as Hcall.
  destruct (generateComicPrompts w (base64 image) mime DEFAULT_PANEL_COUNT s)
    as [r0 s0].
  cbv zeta in Hcall. cbn [fst snd] in Hcall.
  destruct Hcall as (Happ & mid & Hmid & Hlog).
  destruct (call_block PromptGenerator mid (succeeded r0) Hmid) as [Hupd Hrun].
  destruct r0 as [e|panelPrompts]; cbn [succeeded] in *.
  { cbn [fst snd]. eexists _, Stopped. split; [exact Hlog|].
    split; [now apply (Hrun Start Prompting Stopped)|]. auto. }
  specialize (Hrun Start Prompting Scripted eq_refl eq_refl).
  destruct (no_prompts panelPrompts).
  { cbn [fst snd]. eexists _, Scripted. repeat split; eassumption. }
  destruct (iterate "panelPrompts" panelPrompts) as [e|prompts].
  { cbn [fst snd]. eexists _, Scripted. repeat split; eassumption. }
  pose proof (generate_panels_log w prompts [] s0) as Hloop.
  destruct (generate_panels w prompts [] s0) as [r2 s2].
  cbv zeta in Hloop. cbn [fst snd] in Hloop.
  destruct Hloop as (Happ2 & evs & q & Hlog2 & Hupd2 & Hrun2 & Hres).
  assert (Hphase : run_phase Start
            ((Invoke PromptGenerator :: mid ++ [Settle PromptGenerator true])
             ++ evs) = Some q).
  { rewrite run_phase_app. simpl in Hrun. simpl. now rewrite Hrun. }
  assert (Hl : log s2 =
            log s ++ (Invoke PromptGenerator :: mid
                      ++ [Settle PromptGenerator true]) ++ evs).
  { rewrite Hlog2, Hlog, <- app_assoc. reflexivity. }
  destruct r2 as [e|generatedPanels].
  { cbn [fst snd]. eexists _, q. split; [exact Hl|]. split; [exact Hphase|].
    split; [destruct Hres as [->| ->]; reflexivity|].
    split; [congruence|]. now rewrite updates_app, Hupd, Hupd2. }
  subst q. cbn [fst snd app log].
  exists (((Invoke PromptGenerator :: mid ++ [Settle PromptGenerator true])
           ++ evs)
          ++ [SetState (SetComicPanels generatedPanels);
              SetState (SetView COMIC)]), Scripted.
  split; [rewrite Hl, <- !app_assoc; reflexivity|].
  split; [rewrite run_phase_app, Hphase; reflexivity|].
  split; [reflexivity|]. split; [reflexivity|].
  exists generatedPanels. split.
  - rewrite updates_app, updates_app, Hupd, Hupd2. reflexivity.
  - rewrite Happ2, Happ. reflexivity.
Qed.

Lemma run_phase_failure p evs q g :
  run_phase p evs = Some q -> In (Settle g false) evs -> q = Stopped.
Proof.
  intros Hrun Hin. apply in_split in Hin as (pre & post & ->).
  apply run_phase_prefix in Hrun as (m & _ & Hrun).
  cbn [run_phase] in Hrun.
  destruct (step m (Settle g false)) as [m'|] eqn:Hs; [|discriminate].
  apply step_failure in Hs as ->. now apply run_phase_stopped in Hrun.
Qed.

Lemma handleGenerateComic_eq w s :
  handleGenerateComic w s =
  match uploadedImage (app s), uploadedImageMimeType (app s) with
  | Some image, Some (String c rest) =>
      match try_block w image (String c rest) (opened s) with
      | (inr _, s1) =>
          (inr tt,
           {| app := apply_update (SetLoading false) (app s1);
              requests := requests s1;
              log := log s1 ++ [SetState (SetLoading false)] |})
      | (inl err, s1) =>
          let msg := ("Error al generar el cómic: " ++ message err)%string in
          (inr tt,
           {| app := apply_update (SetLoading false)
                       (apply_update (SetError (Some msg)) (app s1));
              requests := requests s1;
              log := log s1 ++ [ConsoleError "Error al generar el cómic:" err;
                                SetState (SetError (Some msg));
                                SetState (SetLoading false)] |})
      end
  | _, _ =>
      set_state
        (SetError (Some "No hay imagen cargada para generar el cómic.")) s
  end.
Proof.
  unfold handleGenerateComic. unfold bind at 1, get_app.
  destruct (uploadedImage (app s)) as [image|]; [|reflexivity].
  destruct (uploadedImageMimeType (app s)) as [[|c rest]|]; try reflexivity.
  unfold bind at 1 2 3 4, set_state at 1 2 3 4. cbn [app requests log].
  unfold try_finally, try_catch.
  replace ((((log s ++ [SetState (SetLoading true)])
             ++ [SetState (SetError None)])
            ++ [SetState (SetComicPanels [])])
           ++ [SetState (SetComicDownloadDataUrl None)])
    with (log (opened s))
    by (unfold opened; cbn [log]; rewrite <- !app_assoc; reflexivity).
  change {| app := _; requests := requests s; log := log (opened s) |}
    with (opened s).
  destruct (try_block w image (String c rest) (opened s)) as [[err|[]] s1].
  - unfold catch_block, console_error, emit, bind, set_state.
    cbn [fst snd app log requests]. rewrite <- !app_assoc. reflexivity.
  - unfold set_state. reflexivity.
Qed.

Lemma handleGenerateComic_log w a n :
  let s' := snd (handleGenerateComic w (start a n)) in
  exists q,
    run_phase Start (log s') = Some q /\ busy q = 0 /\
    (q = Stopped ->
     exists msg,
       updates (log s') =
       [SetLoading true; SetError None; SetComicPanels [];
        SetComicDownloadDataUrl None; SetError (Some msg); SetLoading false]
       /\ app s' = failed_state a msg).
Proof.
  intros s'. subst s'. rewrite handleGenerateComic_eq. cbn [start app].
  destruct (uploadedImage a) as [image|];
    [destruct (uploadedImageMimeType a) as [[|c rest]|]|];
    try (exists Start; split; [reflexivity|]; split; [reflexivity|];
         discriminate).
  pose proof (try_block_log w image (String c rest) (opened (start a n)))
    as Htry.
  destruct (try_block w image (String c rest) (opened (start a n)))
    as [r s1].
  cbv zeta in Htry. cbn [fst snd log app opened start app_nil_l] in Htry.
  destruct Htry as (evs & q & Hlog & Hrun & Hbusy & Hres).
  destruct r as [e|[]]; cbv zeta; cbn [snd log app].
  - destruct Hres as [Happ Hupd]. rewrite Hlog, Happ.
    exists q. split.
    { rewrite <- ?app_assoc. simpl. rewrite run_phase_app, Hrun.
      reflexivity. }
    split; [exact Hbusy|]. intros _.
    exists ("Error al generar el cómic: " ++ message e)%string. split.
    { rewrite <- ?app_assoc. simpl. rewrite updates_app, Hupd. reflexivity. }
    reflexivity.
  - destruct Hres as (-> & l & Hupd & Happ). rewrite Hlog.
    exists Scripted. split.
    { rewrite <- ?app_assoc. simpl. rewrite run_phase_app, Hrun.
      reflexivity. }
    split; [reflexivity|]. discriminate.
Qed.

(** ** Claims on the orchestrator *)

(** C1. When a Panel Image Generator call fails during a run, nothing is
    invoked after the failed call; the state updates of the whole run are
    the four that open it, one [setError] with the message and the final
    [setLoading(false)], so the panel list is only ever set to the empty
    list and the view is never switched to the comic; the run ends with an
    empty panel list, no download URL and the message as its error; and the
    effect of [ComicStrip] on that panel list hands out no data URL. *)
Theorem C1_panel_failure_aborts_run w a n :
  let s' := snd (handleGenerateComic w (start a n)) in
  In (Settle PanelImageGenerator false) (log s') ->
  (forall pre post,
      log s' = pre ++ Settle PanelImageGenerator false :: post ->
      Forall (fun ev => is_invoke ev = false) post)
  /\ (exists msg,
        updates (log s') =
        [SetLoading true; SetError None; SetComicPanels [];
         SetComicDownloadDataUrl None; SetError (Some msg); SetLoading false]
        /\ error (app s') = Some msg)
  /\ comicPanels (app s') = []
  /\ comicDownloadDataUrl (app s') = None
  /\ view (app s') = view a
  /\ (forall t hiddenCanvasRef,
        snd (ComicStrip_effect w t hiddenCanvasRef
               (comicPanels (app s')) (loading (app s'))) = None).
Proof.
  intros s' Hin.
  destruct (handleGenerateComic_log w a n) as (q & Hrun & _ & Hstop).
  fold s' in Hrun, Hstop.
  assert (Hq : q = Stopped) by (eapply run_phase_failure; eauto).
  destruct (Hstop Hq) as (msg & Hupd & Happ).
  split.
  { intros pre post Hsplit. rewrite Hsplit in Hrun.
    apply run_phase_prefix in Hrun as (m & _ & Hrun).
    cbn [run_phase] in Hrun.
    destruct (step m (Settle PanelImageGenerator false)) as [m'|] eqn:Hs;
      [|discriminate].
    apply step_failure in Hs as ->.
    apply run_phase_stopped in Hrun as [_ Hpost].
    eapply Forall_impl; [exact Hpost|].
    intros [g|g ok|l e|u]; simpl; congruence. }
  split; [exists msg; split; [exact Hupd | now rewrite Happ]|].
  rewrite Happ. cbn [failed_state comicPanels comicDownloadDataUrl view loading].
  repeat split; reflexivity.
Qed.

(** In [second_panel_fails] the second image request is rejected. *)
Lemma C1_panel_failure_aborts_run_witness :
  let s' := snd (handleGenerateComic second_panel_fails (start ready_app 0)) in
  In (Settle PanelImageGenerator false) (log s')
  /\ comicPanels (app s') = []
  /\ error (app s') =
     Some "Error al generar el cómic: Failed to generate image: 503 Service Unavailable"%string.
Proof.
  assert (Hin : In (Settle PanelImageGenerator false)
                   (log (snd (handleGenerateComic second_panel_fails
                                (start ready_app 0))))).
  { vm_compute. repeat (first [left; reflexivity | right]). }
  split; [exact Hin|].
  destruct (C1_panel_failure_aborts_run second_panel_fails ready_app 0 Hin)
    as (_ & _ & Hpanels & _).
  split; [exact Hpanels | vm_compute; reflexivity].
Defined.

(** C5. In the log of a run, at most one generator call is outstanding after
    any prefix; a call is only issued when none is outstanding; a Panel Image
    Generator call is only issued after the Prompt Generator call has settled
    with a script; and no call is left outstanding when the run ends. *)
Theorem C5_generator_calls_never_overlap w a n :
  let evs := log (snd (handleGenerateComic w (start a n))) in
  (forall pre post, evs = pre ++ post -> 0 <= outstanding pre <= 1)
  /\ (forall pre g post, evs = pre ++ Invoke g :: post -> outstanding pre = 0)
  /\ (forall pre post,
        evs = pre ++ Invoke PanelImageGenerator :: post ->
        In (Settle PromptGenerator true) pre)
  /\ outstanding evs = 0.
Proof.
  intros evs.
  destruct (handleGenerateComic_log w a n) as (q & Hrun & Hbusy & _).
  fold evs in Hrun. split; [|split; [|split]].
  - intros pre post H. rewrite H in Hrun.
    apply run_phase_prefix in Hrun as (m & Hpre & _).
    apply run_phase_outstanding in Hpre. pose proof (busy_range m).
    simpl in Hpre. lia.
  - intros pre g post H. rewrite H in Hrun.
    apply run_phase_prefix in Hrun as (m & Hpre & Hpost).
    apply run_phase_outstanding in Hpre. cbn [run_phase] in Hpost.
    destruct m, g; simpl in Hpost, Hpre; try discriminate; lia.
  - intros pre post H. rewrite H in Hrun.
    apply run_phase_prefix in Hrun as (m & Hpre & Hpost).
    cbn [run_phase] in Hpost.
    assert (Hm : m = Scripted) by (destruct m; simpl in Hpost; congruence).
    subst m.
    destruct (run_phase_scripted _ _ _ Hpre (or_introl eq_refl))
      as [[Hs|Hs]|Hin]; [discriminate | discriminate | exact Hin].
  - apply run_phase_outstanding in Hrun. simpl in Hrun. lia.
Qed.

(** ** The Prompt Generator *)

(** What a call of [generateComicPrompts] returns. *)
Lemma generateComicPrompts_result w imageBase64 mimeType panelCount s :
  fst (generateComicPrompts w imageBase64 mimeType panelCount s) =
  match API_KEY w with
  | Some (String _ _) =>
      match script_reply w s imageBase64 mimeType panelCount with
      | inl m => inl (wrap_prompt_error TransportError m)
      | inr response =>
          match option_map trim (text response) with
          | Some (String c rest) =>
              match JSON_parse w (String c rest) with
              | inr parsedData => inr parsedData
              | inl m => inl (wrap_prompt_error ParseError m)
              end
          | _ =>
              inl (wrap_prompt_error EmptyResponseError
                     "Empty response or no text content from Gemini API for comic prompts.")
          end
      end
  | _ => inl (mkExn ConfigurationError
                "API_KEY environment variable is not set.")
  end.
Proof.
  unfold generateComicPrompts, script_reply, wrap_prompt_error.
  unfold_monad. cbn [fst snd app log requests].
  destruct (API_KEY w) as [[|c k]|]; try reflexivity.
  cbn [requests].
  destruct (text_model w (requests s) imageBase64 mimeType
              (comic_instruction panelCount)) as [m|response];
    [reflexivity|].
  destruct (option_map trim (text response)) as [[|c' rest]|];
    try reflexivity.
  destruct (JSON_parse w (String c' rest)); reflexivity.
Qed.

(** The call of [generateComicPrompts] whose reply does not parse. *)
Lemma generateComicPrompts_malformed w imageBase64 mimeType panelCount s
    response t m :
  api_key_set w ->
  script_reply w s imageBase64 mimeType panelCount = inr response ->
  text response = Some t -> trim t <> ""%string ->
  JSON_parse w (trim t) = inl m ->
  generateComicPrompts w imageBase64 mimeType panelCount s =
  (inl (wrap_prompt_error ParseError m),
   {| app := app s; requests := S (requests s);
      log := log s ++ [Invoke PromptGenerator;
                       ConsoleError "Error generating comic prompts:"
                         (mkExn ParseError m);
                       Settle PromptGenerator false] |}).
Proof.
  intros (c & k & Hkey) Hreply Htext Hne Hparse.
  unfold generateComicPrompts, script_reply, wrap_prompt_error in *.
  unfold_monad. cbn [fst snd app log requests]. rewrite Hkey.
  cbn [requests]. rewrite Hreply, Htext. cbn [option_map].
  destruct (trim t) as [|c' rest]; [congruence|]. rewrite Hparse.
  cbn [fst snd app log requests origin message].
  rewrite <- !app_assoc. reflexivity.
Qed.

(** The Prompt Generator returns a value exactly when the key is set, the
    service answers, the text of the reply is not blank and [JSON.parse]
    accepts it once trimmed; the value returned is the value parsed. *)
Lemma generateComicPrompts_returns w imageBase64 mimeType panelCount s v :
  fst (generateComicPrompts w imageBase64 mimeType panelCount s) = inr v <->
  api_key_set w /\
  exists response t,
    script_reply w s imageBase64 mimeType panelCount = inr response
    /\ text response = Some t /\ trim t <> ""%string
    /\ JSON_parse w (trim t) = inr v.
Proof.
  rewrite generateComicPrompts_result. unfold api_key_set. split.
  - destruct (API_KEY w) as [[|c k]|] eqn:Hkey; try discriminate.
    destruct (script_reply w s imageBase64 mimeType panelCount)
      as [m|response]; [discriminate|].
    destruct (text response) as [t|] eqn:Htext; [|discriminate].
    cbn [option_map].
    destruct (trim t) as [|c' rest] eqn:Htrim; [discriminate|].
    destruct (JSON_parse w (String c' rest)) as [m|v'] eqn:Hparse;
      [discriminate|].
    intros [= <-]. split; [now exists c, k|].
    exists response, t. rewrite Htrim. repeat split; congruence.
  - intros ((c & k & Hkey) & response & t & Hreply & Htext & Hne & Hparse).
    rewrite Hkey, Hreply, Htext. cbn [option_map].
    destruct (trim t) as [|c' rest]; [congruence|]. now rewrite Hparse.
Qed.

(** White space at the start of a list of characters. *)
Lemma trim_start_nil l :
  trim_start l = [] <-> Forall (fun ch => is_white_space ch = true) l.
Proof.
  induction l as [|ch l IH]; cbn [trim_start]; [split; auto; constructor|].
  destruct (is_white_space ch) eqn:Hch.
  - rewrite IH. split; [now constructor | now inversion 1].
  - split; [discriminate|]. inversion 1; congruence.
Qed.

Lemma trim_start_head l :
  match trim_start l with
  | ch :: _ => is_white_space ch = false
  | [] => True
  end.
Proof.
  induction l as [|ch l IH]; cbn [trim_start]; [exact I|].
  destruct (is_white_space ch) eqn:Hch; [exact IH | exact Hch].
Qed.

Lemma trim_start_keeps (P : string -> Prop) l :
  Forall P l -> Forall P (trim_start l).
Proof.
  induction 1 as [|ch l Hch Hl IH]; cbn [trim_start]; [constructor|].
  destruct (is_white_space ch); [exact IH | now constructor].
Qed.

Lemma join_nil chars :
  Forall (fun ch => char_shaped ch = true) chars ->
  join chars = ""%string -> chars = [].
Proof.
  destruct 1 as [|ch chars Hch _]; [reflexivity|].
  destruct ch; [discriminate | cbn; discriminate].
Qed.

(** A text trims to nothing exactly when all its characters are white
    space or line terminators. *)
Lemma trim_blank t :
  trim t = ""%string <->
  Forall (fun ch => is_white_space ch = true) (code_points t).
Proof.
  unfold trim. split.
  - intros H. apply join_nil in H.
    + apply (f_equal (@rev string)) in H. rewrite rev_involutive in H.
      cbn [rev] in H. apply trim_start_nil, Forall_rev in H.
      rewrite rev_involutive in H.
      pose proof (trim_start_head (code_points t)) as Hhead.
      apply trim_start_nil.
      destruct (trim_start (code_points t)) as [|ch l]; [reflexivity|].
      inversion H; congruence.
    + apply Forall_rev, trim_start_keeps, Forall_rev, trim_start_keeps.
      apply grouped_code_points.
  - intros H. apply trim_start_nil in H. rewrite H. reflexivity.
Qed.

(** C6 (as the claim states it, refuted).  In three worlds the service
    answers a request for four panels with a script that breaks the
    promise, and the Prompt Generator returns it as its script: in
    [short_world] two entries, numbered 1 and 3; in [repeated_world] four
    entries within their limits, numbered 1, 1, 3 and 4; in [wordy_world]
    four entries numbered 1 to 4, one with an image description of 51 words
    and one with a caption of 16. *)
Lemma C6_counterexample :
  let returned w :=
    fst (generateComicPrompts w "iVBORw0KGgo=" "image/png" 4
           (start ready_app 0)) in
  (returned short_world = inr short_script
   /\ well_formed_script 4 short_script = false)
  /\ (returned repeated_world = inr (JArr repeated_entries)
      /\ length repeated_entries = 4%nat
      /\ map panel_number repeated_entries = [1; 1; 3; 4]
      /\ forallb entry_within_limits repeated_entries = true
      /\ well_formed_script 4 (JArr repeated_entries) = false)
  /\ (returned wordy_world = inr (JArr wordy_entries)
      /\ map panel_number wordy_entries = [1; 2; 3; 4]
      /\ word_count long_description = 51%nat
      /\ word_count long_caption = 16%nat
      /\ map entry_within_limits wordy_entries = [true; false; false; true]
      /\ well_formed_script 4 (JArr wordy_entries) = false).
Proof. cbv zeta. repeat split; vm_compute; reflexivity. Qed.

(** C6 (amended).  Whatever the number [n] of panels asked for, the Prompt
    Generator returns a value exactly when the key is set, the service
    answers, the text of the reply is not blank and [JSON.parse] accepts it
    once trimmed, and what it returns is the value parsed, whatever that
    value is: nothing is checked.  So it returns a script of [n] entries
    numbered 1..n within the length limits exactly when the reply parses
    to one. *)
Theorem C6_script_returned_as_received w imageBase64 mimeType n s :
  let r := fst (generateComicPrompts w imageBase64 mimeType n s) in
  let reply := script_reply w s imageBase64 mimeType n in
  (forall script,
      r = inr script <->
      api_key_set w /\
      exists response t,
        reply = inr response /\ text response = Some t
        /\ trim t <> ""%string /\ JSON_parse w (trim t) = inr script)
  /\
  ((exists script, r = inr script /\ well_formed_script n script = true) <->
   api_key_set w /\
   exists response t v,
     reply = inr response /\ text response = Some t
     /\ trim t <> ""%string /\ JSON_parse w (trim t) = inr v
     /\ well_formed_script n v = true).
Proof.
  intros r reply. subst r reply.
  split; [intros script; apply generateComicPrompts_returns|]. split.
  - intros (script & Hr & Hok).
    apply generateComicPrompts_returns in Hr
      as (Hkey & response & t & Hreply & Htext & Hne & Hparse).
    split; [exact Hkey|]. exists response, t, script. auto.
  - intros (Hkey & response & t & v & Hreply & Htext & Hne & Hparse & Hok).
    exists v. split; [|exact Hok].
    apply generateComicPrompts_returns. split; [exact Hkey|].
    exists response, t. auto.
Qed.

Lemma C6_script_returned_as_received_witness :
  fst (generateComicPrompts fair_world "iVBORw0KGgo=" "image/png" 4
         (start ready_app 0)) = inr sample_script
  /\ well_formed_script 4 sample_script = true
  /\ fst (generateComicPrompts wordy_world "iVBORw0KGgo=" "image/png" 4
            (start ready_app 0)) = inr (JArr wordy_entries).
Proof.
  assert (Hkey : api_key_set fair_world)
    by (exists "k"%char, "ey"%string; reflexivity).
  split; [|split; [vm_compute; reflexivity|]].
  - apply (C6_script_returned_as_received fair_world "iVBORw0KGgo="
             "image/png" 4 (start ready_app 0)).
    split; [exact Hkey|].
    exists {| text := Some sample_reply; candidates := None |}, sample_reply.
    split; [reflexivity|]. split; [reflexivity|].
    split; [vm_compute; discriminate | vm_compute; reflexivity].
  - apply (C6_script_returned_as_received wordy_world "iVBORw0KGgo="
             "image/png" 4 (start ready_app 0)).
    split; [exact Hkey|].
    exists {| text := Some (json_text (JArr wordy_entries));
              candidates := None |}, (json_text (JArr wordy_entries)).
    split; [reflexivity|]. split; [reflexivity|].
    split; [vm_compute; discriminate | vm_compute; reflexivity].
Defined.

(** C7 (as the claim states it, refuted).  In [object_world] the reply is
    the text of an empty JSON object: it is not valid JSON matching the
    schema, and the Prompt Generator does not fail with a [ParseError], it
    returns the object. *)
Lemma C7_counterexample :
  let w := object_world in
  let s := start ready_app 0 in
  script_reply w s "iVBORw0KGgo=" "image/png" 4
    = inr {| text := Some "{}"; candidates := None |}
  /\ valid_script_text w (trim "{}") = false
  /\ fst (generateComicPrompts w "iVBORw0KGgo=" "image/png" 4 s)
     = inr (JObj [])
  /\ ~ fails_with ParseError
         (fst (generateComicPrompts w "iVBORw0KGgo=" "image/png" 4 s)).
Proof.
  cbv zeta. split; [reflexivity|]. split; [vm_compute; reflexivity|].
  assert (H : fst (generateComicPrompts object_world "iVBORw0KGgo="
                     "image/png" 4 (start ready_app 0)) = inr (JObj []))
    by (vm_compute; reflexivity).
  split; [exact H|]. rewrite H. intros (e & He & _). discriminate.
Qed.

(** C7 (amended).  The Prompt Generator fails with [EmptyResponseError]
    exactly when the key is set and the reply carries no text: none, or
    text that trims to nothing, which is text made of white space and line
    terminators only.  It fails with [ParseError] exactly when the key is
    set, the reply carries other text and [JSON.parse] throws on it once
    trimmed.  In the one case left, where [JSON.parse] accepts the trimmed
    text, it returns the parsed value as it is, whether or not the value
    matches the schema.  And when the reply to the request of a run is a
    text on which [JSON.parse] throws, the run invokes no Panel Image
    Generator and surfaces the message of the [ParseError]. *)
Theorem C7_prompt_generator_failures w imageBase64 mimeType panelCount s :
  let r := fst (generateComicPrompts w imageBase64 mimeType panelCount s) in
  let reply := script_reply w s imageBase64 mimeType panelCount in
  (fails_with EmptyResponseError r <->
   api_key_set w /\ exists response, reply = inr response /\ no_text response)
  /\
  (forall response,
      no_text response <->
      match text response with
      | None => True
      | Some t => Forall (fun ch => is_white_space ch = true) (code_points t)
      end)
  /\
  (fails_with ParseError r <->
   api_key_set w /\
   exists response t m,
     reply = inr response /\ text response = Some t /\ trim t <> ""%string
     /\ JSON_parse w (trim t) = inl m)
  /\
  (forall v,
      r = inr v <->
      api_key_set w /\
      exists response t,
        reply = inr response /\ text response = Some t
        /\ trim t <> ""%string /\ JSON_parse w (trim t) = inr v)
  /\
  (forall a n image mime response t m,
      uploadedImage a = Some image ->
      uploadedImageMimeType a = Some mime -> mime <> ""%string ->
      api_key_set w ->
      script_reply w (start a n) (base64 image) mime DEFAULT_PANEL_COUNT
        = inr response ->
      text response = Some t -> trim t <> ""%string ->
      JSON_parse w (trim t) = inl m ->
      let s' := snd (handleGenerateComic w (start a n)) in
      Forall (fun ev => ev <> Invoke PanelImageGenerator) (log s')
      /\ In (ConsoleError "Error al generar el cómic:"
               (mkExn ParseError
                  ("Failed to generate comic prompts: " ++ m)%string))
            (log s')
      /\ error (app s') =
         Some ("Error al generar el cómic: Failed to generate comic prompts: "
               ++ m)%string).
Proof.
  intros r reply. subst r reply.
  split; [|split; [|split; [|split]]].
  - rewrite generateComicPrompts_result.
    unfold fails_with, api_key_set, no_text. split.
    + intros (e & He & Ho).
      destruct (API_KEY w) as [[|c k]|] eqn:Hkey;
        try (injection He as <-; discriminate).
      split; [now exists c, k|].
      destruct (script_reply w s imageBase64 mimeType panelCount)
        as [m|response]; [injection He as <-; discriminate|].
      exists response. split; [reflexivity|].
      destruct (text response) as [t|]; [|exact I]. cbn [option_map] in He.
      destruct (trim t) as [|c' rest]; [reflexivity|].
      destruct (JSON_parse w (String c' rest));
        [injection He as <-; discriminate | discriminate].
    + intros ((c & k & Hkey) & response & Hreply & Htext).
      rewrite Hkey, Hreply.
      destruct (text response) as [t|]; cbn [option_map];
        [rewrite Htext|]; eexists; split; reflexivity.
  - intros response. unfold no_text.
    destruct (text response) as [t|]; [apply trim_blank | reflexivity].
  - rewrite generateComicPrompts_result.
    unfold fails_with, api_key_set. split.
    + intros (e & He & Ho).
      destruct (API_KEY w) as [[|c k]|] eqn:Hkey;
        try (injection He as <-; discriminate).
      split; [now exists c, k|].
      destruct (script_reply w s imageBase64 mimeType panelCount)
        as [m|response]; [injection He as <-; discriminate|].
      destruct (text response) as [t|] eqn:Htext;
        [|injection He as <-; discriminate]. cbn [option_map] in He.
      destruct (trim t) as [|c' rest] eqn:Htrim;
        [injection He as <-; discriminate|].
      destruct (JSON_parse w (String c' rest)) as [m|v] eqn:Hparse;
        [|discriminate].
      exists response, t, m. rewrite Htrim. repeat split; congruence.
    + intros ((c & k & Hkey) & response & t & m & Hreply & Htext & Hne & Hp).
      rewrite Hkey, Hreply, Htext. cbn [option_map].
      destruct (trim t) as [|c' rest]; [congruence|]. rewrite Hp.
      eexists. split; reflexivity.
  - intros v. apply generateComicPrompts_returns.
  - intros a n image mime response t m Himg Hmime Hne Hkey Hreply Htext Hnb
      Hparse.
    rewrite handleGenerateComic_eq. cbn [start app]. rewrite Himg, Hmime.
    destruct mime as [|c rest]; [congruence|].
    rewrite try_block_eq.
    rewrite (generateComicPrompts_malformed w (base64 image) (String c rest)
               DEFAULT_PANEL_COUNT (opened (start a n)) response t m Hkey
               Hreply Htext Hnb Hparse).
    cbv zeta. cbn [snd log app opened start app_nil_l requests].
    unfold wrap_prompt_error. cbn [message].
    split; [|split].
    + rewrite <- !app_assoc. cbn [app].
      repeat (constructor; [discriminate|]). constructor.
    + rewrite <- !app_assoc. cbn [app]. do 7 right. left. reflexivity.
    + reflexivity.
Qed.

(** Three replies with white space of more than one byte: the white space
    of [blank_world] is an empty response; the cut text of [malformed_world]
    is trimmed before it fails to parse; the script of [marked_world] is
    trimmed, parsed and returned. *)
Lemma C7_prompt_generator_failures_witness :
  let call w :=
    fst (generateComicPrompts w "iVBORw0KGgo=" "image/png"
           DEFAULT_PANEL_COUNT (start ready_app 0)) in
  let s' := snd (handleGenerateComic malformed_world (start ready_app 0)) in
  fails_with EmptyResponseError (call blank_world)
  /\ fails_with ParseError (call malformed_world)
  /\ call marked_world = inr sample_script
  /\ Forall (fun ev => ev <> Invoke PanelImageGenerator) (log s')
  /\ error (app s') =
     Some "Error al generar el cómic: Failed to generate comic prompts: Unexpected end of JSON input"%string.
Proof.
  cbv zeta.
  assert (Hkey : forall reply parse, api_key_set (world_replying reply parse))
    by (intros; exists "k"%char, "ey"%string; reflexivity).
  pose proof (C7_prompt_generator_failures blank_world "iVBORw0KGgo="
                "image/png" DEFAULT_PANEL_COUNT (start ready_app 0))
    as (Hempty & _).
  pose proof (C7_prompt_generator_failures malformed_world "iVBORw0KGgo="
                "image/png" DEFAULT_PANEL_COUNT (start ready_app 0))
    as (_ & _ & Hparse & _ & Hrun).
  pose proof (C7_prompt_generator_failures marked_world "iVBORw0KGgo="
                "image/png" DEFAULT_PANEL_COUNT (start ready_app 0))
    as (_ & _ & _ & Hvalue & _).
  split; [|split; [|split]].
  - apply Hempty. split; [apply Hkey|].
    eexists. split; [reflexivity|]. vm_compute. reflexivity.
  - apply Hparse. split; [apply Hkey|].
    exists {| text := Some malformed_reply; candidates := None |},
      malformed_reply, "Unexpected end of JSON input"%string.
    split; [reflexivity|]. split; [reflexivity|].
    split; [vm_compute; discriminate | vm_compute; reflexivity].
  - apply Hvalue. split; [apply Hkey|].
    eexists _, _. split; [reflexivity|]. split; [reflexivity|].
    split; [vm_compute; discriminate | vm_compute; reflexivity].
  - destruct (Hrun ready_app 0%nat
                {| base64 := "iVBORw0KGgo="; filename := "cat.png" |}
                "image/png"%string
                {| text := Some malformed_reply; candidates := None |}
                malformed_reply
                "Unexpected end of JSON input"%string)
      as (Hnone & _ & Herr);
      try reflexivity; try (vm_compute; discriminate); try apply Hkey.
    split; [exact Hnone | exact Herr].
Defined.

(** ** The compositor *)

Lemma slot_x_next i : slot_x i + PANEL_WIDTH + COMIC_PADDING = slot_x (S i).
Proof. unfold slot_x. rewrite Nat2Z.inj_succ. lia. Qed.

(** One turn of the loop draws the slot of its panel and leaves the context
    as it found it. *)
Lemma draw_slot w t i panel c :
  ctx c = stitch_context ->
  match load_image w (t + i) (panel_src panel) with
  | Some img => onload img panel (slot_x i) c
  | None => onerror panel (slot_x i) c
  end =
  {| width := width c; height := height c; has_2d := has_2d c;
     ctx := stitch_context;
     bitmap := bitmap c ++ expected_slot w t i panel |}.
Proof.
  intros Hctx. unfold expected_slot, onload, onerror.
  destruct c as [cw ch c2d k ops]. cbn [ctx] in Hctx. subst k.
  destruct (load_image w (t + i) (panel_src panel)) as [img|];
    unfold fillText, fillRect, drawImage, set_fillStyle, with_ctx, paint,
      fallback_ops, caption_op, stitch_context;
    cbn [width height has_2d ctx bitmap fillStyle font textAlign textBaseline];
    rewrite <- ?app_assoc; reflexivity.
Qed.

Lemma draw_panels_strip w t panels : forall i c,
  ctx c = stitch_context ->
  draw_panels w (t + i) panels (slot_x i) c =
  ({| width := width c; height := height c; has_2d := has_2d c;
      ctx := stitch_context;
      bitmap := bitmap c
                ++ concat (imap (fun j => expected_slot w t (i + j)) panels) |},
   slot_x (i + length panels)).
Proof.
  induction panels as [|panel rest IH]; intros i c Hctx.
  - cbn [draw_panels imap concat length]. rewrite app_nil_r, Nat.add_0_r.
    destruct c; cbn in *; subst; reflexivity.
  - cbn [draw_panels]. rewrite (draw_slot w t i panel c Hctx).
    rewrite slot_x_next. replace (S (t + i)) with (t + S i)%nat by lia.
    rewrite IH by reflexivity.
    cbn [width height has_2d bitmap imap concat length].
    rewrite Nat.add_0_r, <- app_assoc.
    replace (i + S (length rest))%nat with (S i + length rest)%nat by lia.
    do 5 f_equal. apply imap_ext. intros j x _. unfold compose.
    f_equal. lia.
Qed.

(** With a canvas that gives a 2D context and a panel list that is not
    empty, [drawComicForDownload] leaves the expected strip on the canvas and
    hands out its encoding. *)
Lemma drawComicForDownload_strip w t canvas panels :
  has_2d canvas = true -> panels <> [] ->
  drawComicForDownload w t (Some canvas) panels =
  (Some (expected_strip w t panels), toDataURL w (expected_strip w t panels)).
Proof.
  intros H2d Hne. unfold drawComicForDownload.
  destruct panels as [|panel rest]; [congruence|].
  destruct canvas as [cw ch c2d k ops]. cbn [has_2d] in H2d. subst c2d.
  cbn [length Nat.eqb has_2d negb].
  set (n := Z.of_nat (S (length rest))).
  set (c := set_textAlign _ _).
  assert (Hctx : ctx c = stitch_context) by reflexivity.
  pose proof (draw_panels_strip w t (panel :: rest) 0 c Hctx) as Hdraw.
  rewrite Nat.add_0_r in Hdraw. change (slot_x 0) with COMIC_PADDING in Hdraw.
  rewrite Hdraw. cbn [fst]. reflexivity.
Qed.

Lemma expected_strip_slots w t panels :
  exists slots,
    bitmap (expected_strip w t panels) =
    FillRect "#f9fafb" 0 0 (width (expected_strip w t panels))
             (height (expected_strip w t panels)) :: concat slots
    /\ length slots = length panels
    /\ forall i panel,
         panels !! i = Some panel ->
         slots !! i = Some (expected_slot w t i panel).
Proof.
  exists (imap (expected_slot w t) panels).
  split; [reflexivity|]. split; [apply length_imap|].
  intros i panel Hi. now rewrite list_lookup_imap, Hi.
Qed.

(** ** Claims on the compositor *)

(** C2. For a panel list of length N > 0 the canvas of the stitched raster
    is N*W + (N-1)*P + 2*P wide and H + C + 2*P high, with W = 500, H = 500,
    C = 50 and P = 20; for four panels that is 2100 by 590. *)
Theorem C2_strip_dimensions w t canvas panels :
  panels <> [] ->
  has_2d canvas = true ->
  exists c',
    fst (drawComicForDownload w t (Some canvas) panels) = Some c'
    /\ width c' =
       Z.of_nat (length panels) * PANEL_WIDTH
       + (Z.of_nat (length panels) - 1) * COMIC_PADDING + 2 * COMIC_PADDING
    /\ height c' = PANEL_HEIGHT + CAPTION_HEIGHT + 2 * COMIC_PADDING
    /\ (PANEL_WIDTH = 500 /\ PANEL_HEIGHT = 500 /\ CAPTION_HEIGHT = 50
        /\ COMIC_PADDING = 20)
    /\ (length panels = 4%nat -> width c' = 2100 /\ height c' = 590).
Proof.
  intros Hne H2d. exists (expected_strip w t panels).
  rewrite (drawComicForDownload_strip w t canvas panels H2d Hne).
  split; [reflexivity|]. split; [reflexivity|]. split; [reflexivity|].
  split; [repeat split|].
  intros H4. cbn [expected_strip width height]. rewrite H4.
  split; reflexivity.
Qed.

Lemma C2_strip_dimensions_witness :
  exists c',
    fst (drawComicForDownload fair_world 0 (Some blank_canvas) four_panels)
      = Some c'
    /\ width c' = 2100 /\ height c' = 590.
Proof.
  destruct (C2_strip_dimensions fair_world 0 blank_canvas four_panels)
    as (c' & Hc & _ & _ & _ & H4); [discriminate | reflexivity |].
  exists c'. split; [exact Hc|]. apply H4. reflexivity.
Defined.

(** C4. When the illustration of exactly one panel, the [k]-th, fails to
    load, the stitched raster still holds one slot per panel: the slot of
    the failed panel is the fallback rectangle at the place of the
    illustration, the label, and the caption of that panel; every other slot
    is the illustration and the caption of its panel, at the places they
    have when nothing fails. *)
Theorem C4_single_decode_failure w t canvas panels k failed :
  has_2d canvas = true ->
  panels !! k = Some failed ->
  load_image w (t + k) (panel_src failed) = None ->
  (forall i panel,
      i <> k -> panels !! i = Some panel ->
      is_Some (load_image w (t + i) (panel_src panel))) ->
  exists c' slots,
    fst (drawComicForDownload w t (Some canvas) panels) = Some c'
    /\ bitmap c' =
       FillRect "#f9fafb" 0 0 (width c') (height c') :: concat slots
    /\ length slots = length panels
    /\ slots !! k =
       Some [FillRect "#e0e0e0" (slot_x k) COMIC_PADDING
                      PANEL_WIDTH PANEL_HEIGHT;
             FillText "#666" "20px Arial" "center" "alphabetic"
                      "Error cargando imagen"
                      (slot_x k + PANEL_WIDTH / 2)
                      (COMIC_PADDING + PANEL_HEIGHT / 2);
             FillText "#333" "20px Arial" "center" "alphabetic"
                      (to_string (caption failed))
                      (slot_x k + PANEL_WIDTH / 2)
                      (COMIC_PADDING + PANEL_HEIGHT + CAPTION_HEIGHT / 2 + 10)]
    /\ forall i panel,
         i <> k -> panels !! i = Some panel ->
         exists img,
           load_image w (t + i) (panel_src panel) = Some img
           /\ slots !! i =
              Some [DrawImage img (slot_x i) COMIC_PADDING
                              PANEL_WIDTH PANEL_HEIGHT;
                    FillText "#333" "20px Arial" "center" "alphabetic"
                             (to_string (caption panel))
                             (slot_x i + PANEL_WIDTH / 2)
                             (COMIC_PADDING + PANEL_HEIGHT
                              + CAPTION_HEIGHT / 2 + 10)].
Proof.
  intros H2d Hk Hfail Hothers.
  assert (Hne : panels <> []) by (intros ->; discriminate).
  destruct (expected_strip_slots w t panels) as (slots & Hb & Hlen & Hslot).
  exists (expected_strip w t panels), slots.
  rewrite (drawComicForDownload_strip w t canvas panels H2d Hne).
  split; [reflexivity|]. split; [exact Hb|]. split; [exact Hlen|]. split.
  - rewrite (Hslot k failed Hk). unfold expected_slot. rewrite Hfail.
    reflexivity.
  - intros i panel Hi Hpanel.
    destruct (Hothers i panel Hi Hpanel) as [img Himg].
    exists img. split; [exact Himg|].
    rewrite (Hslot i panel Hpanel). unfold expected_slot. rewrite Himg.
    reflexivity.
Qed.

Lemma C4_single_decode_failure_witness :
  exists c' slots,
    fst (drawComicForDownload fair_world 0 (Some blank_canvas) one_bad_panel)
      = Some c'
    /\ bitmap c' =
       FillRect "#f9fafb" 0 0 (width c') (height c') :: concat slots
    /\ length slots = 3%nat
    /\ slots !! 1%nat =
       Some [FillRect "#e0e0e0" 540 20 500 500;
             FillText "#666" "20px Arial" "center" "alphabetic"
                      "Error cargando imagen" 790 270;
             FillText "#333" "20px Arial" "center" "alphabetic"
                      "Up it goes!" 790 555].
Proof.
  destruct (C4_single_decode_failure fair_world 0 blank_canvas one_bad_panel
              1 (bad_panel "Up it goes!"))
    as (c' & slots & Hc & Hb & Hlen & Hk & _).
  - reflexivity.
  - reflexivity.
  - reflexivity.
  - intros [|[|[|i]]] panel Hi Hpanel; try congruence;
      try discriminate; injection Hpanel as <-; eexists; reflexivity.
  - exists c', slots. repeat split; assumption.
Defined.

(** C8. In every slot of the stitched raster the last operation writes the
    caption of the panel in ["20px Arial"], colour ["#333"], aligned on its
    centre at the middle of the illustration above it, with the line of
    text (as high as the font size, standing on the baseline) at equal
    distances from the top and the bottom of the caption band. *)
Theorem C8_caption_centred_in_band w t canvas panels :
  panels <> [] ->
  has_2d canvas = true ->
  exists c' slots,
    fst (drawComicForDownload w t (Some canvas) panels) = Some c'
    /\ bitmap c' =
       FillRect "#f9fafb" 0 0 (width c') (height c') :: concat slots
    /\ length slots = length panels
    /\ forall i panel,
         panels !! i = Some panel ->
         exists before x y,
           slots !! i =
           Some (before
                 ++ [FillText "#333" "20px Arial" "center" "alphabetic"
                              (to_string (caption panel)) x y])
           /\ x - slot_x i = slot_x i + PANEL_WIDTH - x
           /\ (y - font_size_px "20px Arial") - band_top = band_bottom - y
           /\ band_bottom - band_top = CAPTION_HEIGHT.
Proof.
  intros Hne H2d.
  destruct (expected_strip_slots w t panels) as (slots & Hb & Hlen & Hslot).
  exists (expected_strip w t panels), slots.
  rewrite (drawComicForDownload_strip w t canvas panels H2d Hne).
  split; [reflexivity|]. split; [exact Hb|]. split; [exact Hlen|].
  intros i panel Hi. rewrite (Hslot i panel Hi). unfold expected_slot.
  destruct (load_image w (t + i) (panel_src panel)) as [img|].
  - exists [DrawImage img (slot_x i) COMIC_PADDING PANEL_WIDTH PANEL_HEIGHT].
    eexists _, _. split; [reflexivity|].
    unfold band_top, band_bottom, PANEL_WIDTH, PANEL_HEIGHT, CAPTION_HEIGHT,
      COMIC_PADDING.
    change (font_size_px "20px Arial") with 20.
    change (500 / 2) with 250. change (50 / 2) with 25. lia.
  - exists (fallback_ops (slot_x i)).
    eexists _, _. split; [reflexivity|].
    unfold band_top, band_bottom, PANEL_WIDTH, PANEL_HEIGHT, CAPTION_HEIGHT,
      COMIC_PADDING.
    change (font_size_px "20px Arial") with 20.
    change (500 / 2) with 250. change (50 / 2) with 25. lia.
Qed.

Lemma C8_caption_centred_in_band_witness :
  exists c' (slots : list (list DrawOp)) before y,
    fst (drawComicForDownload fair_world 0 (Some blank_canvas) one_bad_panel)
      = Some c'
    /\ slots !! 2%nat =
       Some (before
             ++ [FillText "#333" "20px Arial" "center" "alphabetic"
                          "Hello, birds!" 1310 y])
    /\ (y - 20) - 520 = 570 - y.
Proof.
  destruct (C8_caption_centred_in_band fair_world 0 blank_canvas
              one_bad_panel)
    as (c' & slots & Hc & _ & _ & Hcap); [discriminate | reflexivity |].
  destruct (Hcap 2%nat (good_panel "Hello, birds!") eq_refl)
    as (before & x & y & Hslot & Hx & Hy & _).
  exists c', slots, before, y. split; [exact Hc|].
  assert (x = 1310) as ->.
  { unfold slot_x, PANEL_WIDTH, COMIC_PADDING in Hx. lia. }
  split; [exact Hslot | exact Hy].
Defined.

Lemma strip_prefix_app p s : strip_prefix p (p ++ s)%string = Some s.
Proof.
  induction p as [|a p IH]; [destruct s; reflexivity|].
  cbn [String.append strip_prefix]. now rewrite Ascii.eqb_refl.
Qed.

(** The load of a panel that has illustration bytes is the decoding of those
    bytes, whenever it happens. *)
Lemma load_resolved_panel w t panel :
  truthy (imageBase64 panel) = true ->
  load_image w t (panel_src panel) =
  decode_image w (to_string (imageBase64 panel)).
Proof.
  intros Hp. unfold load_image, panel_src. rewrite Hp.
  now rewrite strip_prefix_app.
Qed.

Lemma expected_strip_resolved w t t' panels :
  fully_resolved w panels ->
  expected_strip w t panels = expected_strip w t' panels.
Proof.
  intros Hres. unfold expected_strip. do 3 f_equal.
  apply imap_ext. intros i panel Hi.
  destruct (proj1 (Forall_lookup _ _) Hres i panel Hi) as [Hp _].
  unfold expected_slot. now rewrite !load_resolved_panel.
Qed.

(** C9. For a panel list whose illustrations are all present and decodable,
    stitching again, at any later time and on the canvas the first stitching
    left, gives the same canvas (size, context and bitmap) and the same data
    URL as the first stitching. *)
Theorem C9_stitching_is_repeatable w t t' hiddenCanvasRef panels :
  fully_resolved w panels ->
  drawComicForDownload w t'
    (fst (drawComicForDownload w t hiddenCanvasRef panels)) panels
  = drawComicForDownload w t hiddenCanvasRef panels.
Proof.
  intros Hres. destruct hiddenCanvasRef as [canvas|]; [|reflexivity].
  destruct panels as [|panel rest]; [reflexivity|].
  destruct (has_2d canvas) eqn:H2d.
  - rewrite (drawComicForDownload_strip w t canvas (panel :: rest) H2d)
      by discriminate.
    cbn [fst].
    rewrite (drawComicForDownload_strip w t' _ (panel :: rest))
      by (reflexivity || discriminate).
    now rewrite (expected_strip_resolved w t' t (panel :: rest) Hres).
  - unfold drawComicForDownload. cbn [length Nat.eqb]. rewrite H2d.
    cbn [negb fst length Nat.eqb]. rewrite H2d. reflexivity.
Qed.

Lemma C9_stitching_is_repeatable_witness :
  fully_resolved fair_world four_panels
  /\ drawComicForDownload fair_world 7
       (fst (drawComicForDownload fair_world 0 (Some blank_canvas)
               four_panels))
       four_panels
     = drawComicForDownload fair_world 0 (Some blank_canvas) four_panels.
Proof.
  assert (H : fully_resolved fair_world four_panels).
  { repeat constructor; eexists; reflexivity. }
  split; [exact H|].
  exact (C9_stitching_is_repeatable fair_world 0 7 (Some blank_canvas)
           four_panels H).
Defined.

(** Without the illustration bytes the loop falls back on the placeholder
    URL, and two stitchings need not agree. *)
Lemma placeholder_stitching_differs :
  drawComicForDownload lottery_world 1
    (fst (drawComicForDownload lottery_world 0 (Some blank_canvas)
            [pending_panel]))
    [pending_panel]
  <> drawComicForDownload lottery_world 0 (Some blank_canvas) [pending_panel].
Proof. vm_compute. discriminate. Qed.

(** C10. With an empty panel list, [drawComicForDownload] leaves the canvas
    as it is and calls neither [setDownloadLink] nor [onDownloadReady]; the
    effect of [ComicStrip] does not even call it. *)
Theorem C10_empty_panel_list_draws_nothing w t hiddenCanvasRef loading :
  drawComicForDownload w t hiddenCanvasRef [] = (hiddenCanvasRef, None)
  /\ ComicStrip_effect w t hiddenCanvasRef [] loading = (hiddenCanvasRef, None).
Proof.
  split; [destruct hiddenCanvasRef; reflexivity | reflexivity].
Qed.

(** ** The base64 helpers *)

From Stdlib Require Import ZifyNat.

Lemma triples_ind (A : Type) (P : list A -> Prop) :
  P [] -> (forall a, P [a]) -> (forall a b, P [a; b]) ->
  (forall a b c rest, P rest -> P (a :: b :: c :: rest)) ->
  forall l, P l.
Proof.
  intros H0 H1 H2 H3.
  assert (H : forall l, P l /\ (forall a, P (a :: l))
                        /\ (forall a b, P (a :: b :: l))).
  { induction l as [|c rest (IH0 & IH1 & IH2)].
    - repeat split; auto.
    - repeat split; auto. }
  intros l. apply H.
Qed.

Lemma octet_bound (a : ascii) : (nat_of_ascii a < 256)%nat.
Proof. apply nat_ascii_bounded. Qed.

Lemma sextets_of_bound l : Forall (fun n => (n < 64)%nat) (sextets_of l).
Proof.
  induction l as [|a|a b|a b c rest IH] using triples_ind;
    cbn [sextets_of Datatypes.app]; cbv zeta; cbn [Datatypes.app];
    try pose proof (octet_bound a); try pose proof (octet_bound b);
    try pose proof (octet_bound c);
    repeat (constructor; [lia|]); try constructor; try exact IH.
Qed.

Lemma sextets_of_length l :
  length (sextets_of l) =
  (4 * (length l / 3)
   + match length l mod 3 with 0 => 0 | 1 => 2 | _ => 3 end)%nat.
Proof.
  induction l as [|a|a b|a b c rest IH] using triples_ind;
    try reflexivity.
  cbn [sextets_of]. cbv zeta. rewrite length_app, IH. cbn [length].
  replace (S (S (S (length rest)))) with (length rest + 1 * 3)%nat by lia.
  rewrite Nat.div_add, Nat.Div0.mod_add by lia. lia.
Qed.

Lemma ascii_of_nat_eq a n : n = nat_of_ascii a -> ascii_of_nat n = a.
Proof. intros ->. apply ascii_nat_embedding. Qed.

Lemma octets_of_sextets_of l : octets_of (sextets_of l) = l.
Proof.
  induction l as [|a|a b|a b c rest IH] using triples_ind;
    cbn [sextets_of]; cbv zeta; cbn [Datatypes.app octets_of];
    try pose proof (octet_bound a); try pose proof (octet_bound b);
    try pose proof (octet_bound c); rewrite ?IH;
    repeat first [ reflexivity | apply ascii_of_nat_eq; lia | f_equal ].
Qed.

Lemma sextet_char_facts n :
  (n < 64)%nat ->
  char_sextet (sextet_char n) = Some n
  /\ Ascii.eqb (sextet_char n) "=" = false
  /\ is_base64_space (sextet_char n) = false.
Proof.
  intros Hn.
  do 64 (destruct n as [|n]; [vm_compute; repeat split; reflexivity|]).
  lia.
Qed.

Lemma sextets_in_chars sx :
  Forall (fun n => (n < 64)%nat) sx ->
  sextets_in (map sextet_char sx) = Some sx.
Proof.
  induction 1 as [|n sx Hn _ IH]; [reflexivity|].
  cbn [map sextets_in].
  destruct (sextet_char_facts n Hn) as (-> & _). now rewrite IH.
Qed.

Lemma no_space_in_encoding sx k :
  Forall (fun n => (n < 64)%nat) sx ->
  filter (fun c => negb (is_base64_space c))
         (map sextet_char sx ++ repeat "="%char k)
  = map sextet_char sx ++ repeat "="%char k.
Proof.
  induction 1 as [|n sx Hn _ IH].
  - induction k as [|k IHk]; [reflexivity|].
    cbn [repeat Datatypes.app map] in *. rewrite filter_cons.
    destruct (decide _) as [_|Hno]; [now rewrite IHk|].
    exfalso. apply Hno. reflexivity.
  - cbn [map Datatypes.app]. rewrite filter_cons.
    destruct (sextet_char_facts n Hn) as (_ & _ & Hs).
    destruct (decide _) as [_|Hno]; [now rewrite IH|].
    exfalso. apply Hno. rewrite Hs. reflexivity.
Qed.

Lemma strip_padding_app cs k :
  Forall (fun c => Ascii.eqb c "=" = false) cs -> (k <= 2)%nat ->
  strip_padding (cs ++ repeat "="%char k) = cs.
Proof.
  intros Hcs Hk. unfold strip_padding.
  rewrite rev_app_distr, rev_repeat.
  assert (Hlast : match rev cs with
                  | e :: _ => Ascii.eqb e "=" = false
                  | [] => True
                  end).
  { destruct (rev cs) as [|e r] eqn:Hr; [exact I|].
    apply (proj1 (List.Forall_forall _ _) Hcs). apply in_rev. rewrite Hr.
    now left. }
  destruct k as [|[|[|k]]]; [| | |lia]; cbn [repeat Datatypes.app].
  - rewrite app_nil_r.
    destruct (rev cs) as [|e1 [|e2 r]] eqn:Hr.
    + apply (f_equal (@rev _)) in Hr. now rewrite rev_involutive in Hr.
    + now rewrite Hlast.
    + now rewrite Hlast.
  - destruct (rev cs) as [|e2 r] eqn:Hr; cbn [Ascii.eqb Bool.eqb andb].
    + apply (f_equal (@rev _)) in Hr. now rewrite rev_involutive in Hr.
    + change (Ascii.eqb "=" "=") with true. cbv iota. rewrite Hlast.
      rewrite <- Hr. apply rev_involutive.
  - change (Ascii.eqb "=" "=") with true. cbv iota. apply rev_involutive.
Qed.

Lemma atob_btoa binary : atob (btoa binary) = Some binary.
Proof.
  unfold atob, btoa. rewrite list_ascii_of_string_of_list_ascii.
  set (octets := list_ascii_of_string binary).
  pose proof (sextets_of_bound octets) as Hb.
  rewrite (no_space_in_encoding _ _ Hb).
  assert (Hk : ((3 - length octets mod 3) mod 3 <= 2)%nat) by lia.
  assert (Hlen : (length (map sextet_char (sextets_of octets)
                          ++ repeat "="%char ((3 - length octets mod 3) mod 3))
                  mod 4 = 0)%nat).
  { rewrite length_app, length_map, repeat_length, sextets_of_length.
    destruct (length octets mod 3)%nat as [|[|[|r]]] eqn:Hr; cbv iota; lia. }
  rewrite Hlen. cbn [Nat.eqb].
  rewrite strip_padding_app; [| |exact Hk].
  2:{ apply Forall_map. eapply Forall_impl; [exact Hb|].
      intros n Hn. apply (sextet_char_facts n Hn). }
  rewrite length_map, sextets_of_length.
  replace ((4 * (length octets / 3)
            + match length octets mod 3 with 0 => 0 | 1 => 2 | _ => 3 end)
           mod 4 =? 1)%nat with false.
  2:{ symmetry. apply Nat.eqb_neq.
      destruct (length octets mod 3)%nat as [|[|r]]; lia. }
  rewrite (sextets_in_chars _ Hb), octets_of_sextets_of.
  unfold octets. now rewrite string_of_list_ascii_of_string.
Qed.

(** ** The generators, again *)

Lemma quiet_invocations mid : quiet mid -> invocations mid = 0%nat.
Proof.
  unfold invocations. induction 1 as [|ev mid [Hc _] _ IH]; [reflexivity|].
  rewrite filter_cons. destruct (decide _) as [Hi|_]; [|exact IH].
  destruct ev; simpl in *; congruence.
Qed.

Lemma invocations_app evs1 evs2 :
  invocations (evs1 ++ evs2) = (invocations evs1 + invocations evs2)%nat.
Proof. unfold invocations. now rewrite filter_app, length_app. Qed.

Lemma call_invocations g mid ok :
  quiet mid -> invocations (Invoke g :: mid ++ [Settle g ok]) = 1%nat.
Proof.
  intros Hq. change (Invoke g :: mid ++ [Settle g ok])
    with ([Invoke g] ++ mid ++ [Settle g ok]).
  rewrite !invocations_app, (quiet_invocations _ Hq). reflexivity.
Qed.

Lemma generateComicPrompts_requests w imageBase64 mimeType panelCount s :
  requests (snd (generateComicPrompts w imageBase64 mimeType panelCount s))
  = (requests_per_call w + requests s)%nat.
Proof.
  unfold generateComicPrompts, requests_per_call. unfold_monad. simpl.
  split_cases; reflexivity.
Qed.

Lemma generateImageFromPrompt_requests w imagePrompt s :
  requests (snd (generateImageFromPrompt w imagePrompt s))
  = (requests_per_call w + requests s)%nat.
Proof.
  unfold generateImageFromPrompt, requests_per_call. unfold_monad. simpl.
  split_cases; reflexivity.
Qed.

(** What a call of [generateImageFromPrompt] returns. *)
Lemma generateImageFromPrompt_result w imagePrompt s :
  fst (generateImageFromPrompt w imagePrompt s) =
  match API_KEY w with
  | Some (String _ _) =>
      match image_model w (requests s) imagePrompt with
      | inl m =>
          inl (mkExn TransportError ("Failed to generate image: " ++ m)%string)
      | inr response =>
          match first_inline_data (response_parts response) with
          | Some d => inr d
          | None =>
              inl (mkExn EmptyResponseError
                     "Failed to generate image: No image data found in the Gemini API response.")
          end
      end
  | _ => inl (mkExn ConfigurationError
                "API_KEY environment variable is not set.")
  end.
Proof.
  unfold generateImageFromPrompt. unfold_monad.
  cbn [fst snd app log requests].
  destruct (API_KEY w) as [[|c k]|]; try reflexivity.
  cbn [requests].
  destruct (image_model w (requests s) imagePrompt) as [m|response];
    [reflexivity|].
  destruct (first_inline_data (response_parts response)); reflexivity.
Qed.

Lemma first_inline_data_some l d :
  first_inline_data l = Some d <->
  exists before part blob after,
    l = before ++ part :: after
    /\ Forall (fun q => inlineData q = None) before
    /\ inlineData part = Some blob /\ data blob = d.
Proof.
  induction l as [|q l IH]; cbn [first_inline_data].
  - split; [discriminate|]. intros (before & part & blob & after & H & _).
    destruct before; discriminate.
  - destruct (inlineData q) as [blob|] eqn:Hq.
    + split.
      * intros [= <-]. exists [], q, blob, l. repeat split; auto.
      * intros (before & part & b & after & H & Hb & Hp & Hd).
        destruct before as [|q' before]; cbn in H; injection H as -> ->.
        -- congruence.
        -- apply Forall_cons in Hb as [Hb _]. congruence.
    + rewrite IH. split.
      * intros (before & part & b & after & -> & Hb & Hp & Hd).
        exists (q :: before), part, b, after. repeat split; auto.
      * intros (before & part & b & after & H & Hb & Hp & Hd).
        destruct before as [|q' before]; cbn in H; injection H as -> ->.
        -- congruence.
        -- apply Forall_cons in Hb as [_ Hb].
           exists before, part, b, after. repeat split; auto.
Qed.

Lemma first_inline_data_none l :
  first_inline_data l = None <-> Forall (fun q => inlineData q = None) l.
Proof.
  induction l as [|q l IH]; cbn [first_inline_data].
  - split; auto.
  - destruct (inlineData q) eqn:Hq.
    + split; [discriminate|]. intros H. apply Forall_cons in H as [H _].
      congruence.
    + rewrite IH. split; [now constructor|].
      intros H. now apply Forall_cons in H as [_ H].
Qed.

(** X1.  [generateImageFromPrompt] returns the data of the first part of the
    first candidate that carries inline data, whatever follows it, and fails
    for want of an image exactly when the key is set, the service answers
    and no part of the first candidate carries inline data. *)
Theorem generateImageFromPrompt_first_inline_part w imagePrompt s :
  let r := fst (generateImageFromPrompt w imagePrompt s) in
  (forall d,
      r = inr d <->
      api_key_set w /\
      exists reply before part blob after,
        image_model w (requests s) imagePrompt = inr reply
        /\ response_parts reply = before ++ part :: after
        /\ Forall (fun q => inlineData q = None) before
        /\ inlineData part = Some blob /\ data blob = d)
  /\ (fails_with EmptyResponseError r <->
      api_key_set w /\
      exists reply,
        image_model w (requests s) imagePrompt = inr reply
        /\ Forall (fun q => inlineData q = None) (response_parts reply)).
Proof.
  intros r. subst r. rewrite generateImageFromPrompt_result.
  unfold api_key_set, fails_with. split.
  - intros d. split.
    + destruct (API_KEY w) as [[|c k]|]; try discriminate.
      destruct (image_model w (requests s) imagePrompt) as [m|reply];
        [discriminate|].
      destruct (first_inline_data (response_parts reply)) as [d'|] eqn:Hd;
        [|discriminate].
      intros [= <-]. split; [now exists c, k|].
      apply first_inline_data_some in Hd
        as (before & part & blob & after & H).
      now exists reply, before, part, blob, after.
    + intros ((c & k & ->) & reply & before & part & blob & after
              & -> & Hparts & H).
      assert (Hd : first_inline_data (response_parts reply) = Some d).
      { apply first_inline_data_some.
        now exists before, part, blob, after. }
      now rewrite Hd.
  - split.
    + intros (e & He & Ho).
      destruct (API_KEY w) as [[|c k]|];
        try (injection He as <-; discriminate).
      split; [now exists c, k|].
      destruct (image_model w (requests s) imagePrompt) as [m|reply];
        [injection He as <-; discriminate|].
      exists reply. split; [reflexivity|].
      apply first_inline_data_none.
      destruct (first_inline_data (response_parts reply));
        [discriminate | reflexivity].
    + intros ((c & k & ->) & reply & -> & Hnone).
      apply first_inline_data_none in Hnone. rewrite Hnone.
      eexists. split; reflexivity.
Qed.

(** ** Requests *)

Lemma invocations_quiet_cons ev evs :
  is_invoke ev = false -> invocations (ev :: evs) = invocations evs.
Proof.
  intros H. unfold invocations. rewrite filter_cons.
  destruct (decide _); [congruence | reflexivity].
Qed.

Lemma generate_panels_requests w prompts : forall acc s,
  let R := generate_panels w prompts acc s in
  exists evs,
    log (snd R) = log s ++ evs
    /\ requests (snd R)
       = (requests_per_call w * invocations evs + requests s)%nat.
Proof.
  induction prompts as [|prompt rest IH]; intros acc s.
  - exists []. cbn. rewrite app_nil_r. split; [reflexivity | lia].
  - cbv zeta. rewrite generate_panels_cons.
    destruct (get_prop prompt "imagePrompt") as [e|imagePrompt].
    { exists []. cbn. rewrite app_nil_r. split; [reflexivity | lia]. }
    pose proof (generateImageFromPrompt_log w imagePrompt s) as Hcall.
    pose proof (generateImageFromPrompt_requests w imagePrompt s) as Hreq.
    destruct (generateImageFromPrompt w imagePrompt s) as [r1 s1].
    cbv zeta in Hcall. cbn [fst snd] in Hcall, Hreq.
    destruct Hcall as (_ & mid & Hmid & Hlog).
    pose proof (call_invocations PanelImageGenerator mid (succeeded r1) Hmid)
      as Hone.
    assert (Hhere : exists evs,
               log s1 = log s ++ evs
               /\ requests s1
                  = (requests_per_call w * invocations evs + requests s)%nat).
    { eexists. split; [exact Hlog|]. rewrite Hone, Hreq. lia. }
    destruct r1 as [e|image]; [exact Hhere|].
    destruct (get_prop prompt "caption") as [e|cap]; [exact Hhere|].
    specialize (IH (acc ++ [{| caption := cap; imageBase64 := image |}]) s1).
    cbv zeta in IH. destruct IH as (evs & Hlog' & Hreq').
    exists ((Invoke PanelImageGenerator :: mid
             ++ [Settle PanelImageGenerator (succeeded (inr image))])
            ++ evs).
    split; [rewrite Hlog', Hlog, <- app_assoc; reflexivity|].
    rewrite Hreq', Hreq, invocations_app, Hone. lia.
Qed.

Lemma try_block_requests w image mime s :
  let R := try_block w image mime s in
  exists evs,
    log (snd R) = log s ++ evs
    /\ requests (snd R)
       = (requests_per_call w * invocations evs + requests s)%nat.
Proof.
  intros R. subst R. rewrite try_block_eq.
  pose proof (generateComicPrompts_log w (base64 image) mime
                DEFAULT_PANEL_COUNT s) as Hcall.
  pose proof (generateComicPrompts_requests w (base64 image) mime
                DEFAULT_PANEL_COUNT s) as Hreq.
  destruct (generateComicPrompts w (base64 image) mime DEFAULT_PANEL_COUNT s)
    as [r0 s0].
  cbv zeta in Hcall. cbn [fst snd] in Hcall, Hreq.
  destruct Hcall as (_ & mid & Hmid & Hlog).
  pose proof (call_invocations PromptGenerator mid (succeeded r0) Hmid)
    as Hone.
  assert (Hhere : exists evs,
             log s0 = log s ++ evs
             /\ requests s0
                = (requests_per_call w * invocations evs + requests s)%nat).
  { eexists. split; [exact Hlog|]. rewrite Hone, Hreq. lia. }
  destruct r0 as [e|panelPrompts]; [exact Hhere|].
  destruct (no_prompts panelPrompts); [exact Hhere|].
  destruct (iterate "panelPrompts" panelPrompts) as [e|prompts];
    [exact Hhere|].
  pose proof (generate_panels_requests w prompts [] s0) as Hloop.
  destruct (generate_panels w prompts [] s0) as [r2 s2].
  cbv zeta in Hloop. cbn [fst snd] in Hloop.
  destruct Hloop as (evs & Hlog2 & Hreq2).
  assert (Hthere : exists evs,
             log s2 = log s ++ evs
             /\ requests s2
                = (requests_per_call w * invocations evs + requests s)%nat).
  { exists ((Invoke PromptGenerator :: mid
             ++ [Settle PromptGenerator (succeeded (inr panelPrompts))])
            ++ evs).
    split; [rewrite Hlog2, Hlog, <- app_assoc; reflexivity|].
    rewrite Hreq2, Hreq, invocations_app, Hone. lia. }
  destruct r2 as [e|generatedPanels]; [exact Hthere|].
  destruct Hthere as (evs' & Hlog' & Hreq').
  cbn [snd log requests].
  exists (evs' ++ [SetState (SetComicPanels generatedPanels);
                   SetState (SetView COMIC)]).
  split; [rewrite Hlog', <- !app_assoc; reflexivity|].
  rewrite Hreq', invocations_app.
  change (invocations [SetState (SetComicPanels generatedPanels);
                       SetState (SetView COMIC)]) with 0%nat. lia.
Qed.

(** X2.  A run sends one request to the service for each generator call it
    issues, and none when no key is set: nothing is asked twice. *)
Theorem run_sends_one_request_per_call w a n :
  let s' := snd (handleGenerateComic w (start a n)) in
  requests s'
  = (n + requests_per_call w * invocations (log s'))%nat
  /\ (requests_per_call w <= 1)%nat.
Proof.
  intros s'. subst s'. split.
  2:{ unfold requests_per_call. destruct (API_KEY w) as [[|c k]|]; lia. }
  rewrite handleGenerateComic_eq. cbn [start app].
  destruct (uploadedImage a) as [image|];
    [destruct (uploadedImageMimeType a) as [[|c rest]|]|];
    try (unfold set_state; cbn [snd log requests start Datatypes.app];
         change (invocations [_]) with 0%nat; lia).
  pose proof (try_block_requests w image (String c rest)
                (opened (start a n))) as Htry.
  destruct (try_block w image (String c rest) (opened (start a n)))
    as [r s1].
  cbv zeta in Htry. cbn [fst snd log requests opened start app_nil_l] in Htry.
  destruct Htry as (evs & Hlog & Hreq).
  destruct r as [e|[]]; cbv zeta; cbn [snd log requests];
    rewrite Hlog, Hreq, <- ?app_assoc; cbn [Datatypes.app];
    rewrite ?invocations_quiet_cons by reflexivity;
    rewrite invocations_app, ?invocations_quiet_cons by reflexivity;
    change (invocations []) with 0%nat; lia.
Qed.

(** ** Outcomes of a run *)

Lemma generateComicPrompts_result_at w imageBase64 mimeType panelCount s1 s2 :
  requests s1 = requests s2 ->
  fst (generateComicPrompts w imageBase64 mimeType panelCount s1)
  = fst (generateComicPrompts w imageBase64 mimeType panelCount s2).
Proof.
  intros H. rewrite !generateComicPrompts_result. unfold script_reply.
  now rewrite H.
Qed.

Lemma success_needs_key w : forall {A} (r : Exn + A) (d : A),
  match API_KEY w with
  | Some (String _ _) => r
  | _ => inl (mkExn ConfigurationError
                "API_KEY environment variable is not set.")
  end = inr d ->
  requests_per_call w = 1%nat.
Proof.
  intros A r d. unfold requests_per_call.
  destruct (API_KEY w) as [[|c k]|]; [discriminate | reflexivity | discriminate].
Qed.

Lemma image_success w imagePrompt s image :
  fst (generateImageFromPrompt w imagePrompt s) = inr image ->
  requests (snd (generateImageFromPrompt w imagePrompt s)) = S (requests s)
  /\ exists reply,
       image_model w (requests s) imagePrompt = inr reply
       /\ first_inline_data (response_parts reply) = Some image.
Proof.
  intros H. rewrite generateImageFromPrompt_requests.
  rewrite generateImageFromPrompt_result in H.
  rewrite (success_needs_key w _ _ H). split; [reflexivity|].
  destruct (API_KEY w) as [[|c k]|]; try discriminate.
  destruct (image_model w (requests s) imagePrompt) as [m|reply];
    [discriminate|].
  exists reply. split; [reflexivity|].
  destruct (first_inline_data (response_parts reply)); [|discriminate].
  now injection H as ->.
Qed.

(** A loop that completes has pushed, for each entry of the script in turn,
    the panel of that entry, asked for with the next request number. *)
Lemma generate_panels_entries w prompts : forall acc s l,
  fst (generate_panels w prompts acc s) = inr l ->
  exists panels,
    l = acc ++ panels /\ length panels = length prompts /\
    forall i prompt,
      prompts !! i = Some prompt ->
      exists panel,
        panels !! i = Some panel
        /\ panel_of_entry w (requests s + i) prompt panel.
Proof.
  induction prompts as [|prompt rest IH]; intros acc s l.
  - simpl. intros [= <-]. exists []. rewrite app_nil_r.
    split; [reflexivity|]. split; [reflexivity|]. intros i p. discriminate.
  - rewrite generate_panels_cons.
    destruct (get_prop prompt "imagePrompt") as [e|imagePrompt] eqn:Hip;
      [discriminate|].
    pose proof (image_success w imagePrompt s) as Himg.
    destruct (generateImageFromPrompt w imagePrompt s) as [[e|image] s1];
      [discriminate|].
    destruct (Himg image eq_refl) as (Hreq & reply & Hreply & Hdata).
    cbn [snd] in Hreq.
    destruct (get_prop prompt "caption") as [e|cap] eqn:Hcap; [discriminate|].
    intros H. apply IH in H as (panels & -> & Hlen & Hall).
    exists ({| caption := cap; imageBase64 := image |} :: panels).
    split; [now rewrite <- app_assoc|]. split; [cbn; lia|].
    intros [|i] p Hp.
    + injection Hp as <-. eexists. split; [reflexivity|].
      exists imagePrompt, reply. rewrite Nat.add_0_r. auto.
    + destruct (Hall i p Hp) as (panel & Hpanel & Hentry).
      exists panel. split; [exact Hpanel|].
      now replace (requests s + S i)%nat with (requests s1 + i)%nat by lia.
Qed.

Lemma script_not_empty name panelPrompts prompts :
  no_prompts panelPrompts = false ->
  iterate name panelPrompts = inr prompts ->
  prompts <> [].
Proof.
  destruct panelPrompts as [| |b|k|s|items|fields]; try discriminate.
  - destruct s as [|c rest]; [discriminate|]. intros _ [= <-] H.
    apply map_eq_nil in H. exact (code_points_not_nil c rest H).
  - destruct items; [discriminate|]. intros _ [= <-]. discriminate.
Qed.

Lemma try_block_outcome w image mime s :
  let R := try_block w image mime s in
  match fst R with
  | inl _ => app (snd R) = app s
  | inr _ =>
      exists script prompts panels,
        fst (generateComicPrompts w (base64 image) mime DEFAULT_PANEL_COUNT s)
          = inr script
        /\ iterate "panelPrompts" script = inr prompts
        /\ prompts <> []
        /\ length panels = length prompts
        /\ (forall i prompt,
              prompts !! i = Some prompt ->
              exists panel,
                panels !! i = Some panel
                /\ panel_of_entry w (S (requests s) + i) prompt panel)
        /\ app (snd R) =
           apply_update (SetView COMIC)
             (apply_update (SetComicPanels panels) (app s))
  end.
Proof.
  intros R. subst R. rewrite try_block_eq.
  pose proof (generateComicPrompts_log w (base64 image) mime
                DEFAULT_PANEL_COUNT s) as Hcall.
  pose proof (generateComicPrompts_requests w (base64 image) mime
                DEFAULT_PANEL_COUNT s) as Hreq.
  pose proof (generateComicPrompts_result w (base64 image) mime
                DEFAULT_PANEL_COUNT s) as Hres.
  destruct (generateComicPrompts w (base64 image) mime DEFAULT_PANEL_COUNT s)
    as [r0 s0].
  cbv zeta in Hcall. cbn [fst snd] in Hcall, Hreq, Hres.
  destruct Hcall as (Happ & _).
  destruct r0 as [e|panelPrompts]; [exact Happ|].
  symmetry in Hres. rewrite (success_needs_key w _ _ Hres) in Hreq.
  destruct (no_prompts panelPrompts) eqn:Hno; [exact Happ|].
  destruct (iterate "panelPrompts" panelPrompts) as [e|prompts] eqn:Hit;
    [exact Happ|].
  pose proof (generate_panels_log w prompts [] s0) as Hloop.
  pose proof (generate_panels_entries w prompts [] s0) as Hentries.
  destruct (generate_panels w prompts [] s0) as [r2 s2].
  cbv zeta in Hloop. cbn [fst snd] in Hloop, Hentries.
  destruct Hloop as (Happ2 & _).
  destruct r2 as [e|generatedPanels]; [cbn [fst snd]; congruence|].
  destruct (Hentries generatedPanels eq_refl) as (panels & -> & Hlen & Hall).
  cbn [fst snd app]. exists panelPrompts, prompts, panels.
  split; [reflexivity|]. split; [exact Hit|].
  split; [eapply script_not_empty; eauto|]. split; [exact Hlen|].
  split; [|now rewrite Happ2, Happ].
  intros i prompt Hp. destruct (Hall i prompt Hp) as (panel & H1 & H2).
  exists panel. split; [exact H1|]. now rewrite Hreq in H2.
Qed.

(** X3.  A run that has an image ends with [loading] off and no download
    URL, and in one of two ways: with an error and an empty panel list, on
    the view it started from; or with no error, a panel list that is not
    empty, and the comic view. *)
Theorem run_ends_with_error_or_comic w a n image mime :
  uploadedImage a = Some image ->
  uploadedImageMimeType a = Some mime -> mime <> ""%string ->
  let a' := app (snd (handleGenerateComic w (start a n))) in
  loading a' = false
  /\ comicDownloadDataUrl a' = None
  /\ uploadedImage a' = Some image
  /\ ((exists msg, error a' = Some msg) /\ comicPanels a' = []
      /\ view a' = view a
      \/ error a' = None /\ comicPanels a' <> [] /\ view a' = COMIC).
Proof.
  intros Himg Hmime Hne a'. subst a'.
  rewrite handleGenerateComic_eq. cbn [start app]. rewrite Himg, Hmime.
  destruct mime as [|c rest]; [congruence|].
  pose proof (try_block_outcome w image (String c rest) (opened (start a n)))
    as Hout.
  destruct (try_block w image (String c rest) (opened (start a n)))
    as [[e|[]] s1]; cbv zeta in Hout; cbn [fst snd] in Hout.
  - cbv zeta. cbn [snd app]. rewrite Hout.
    cbn. rewrite Himg. repeat split. left. repeat split. eauto.
  - destruct Hout as (script & prompts & panels & _ & _ & Hne' & Hlen & _
                      & Happ).
    cbn [snd app]. rewrite Happ. cbn. rewrite Himg. repeat split.
    right. repeat split.
    intros ->. destruct prompts; [congruence | discriminate].
Qed.

Lemma run_ends_with_error_or_comic_witness :
  let a' := app (snd (handleGenerateComic fair_world (start ready_app 0))) in
  error a' = None /\ length (comicPanels a') = 4%nat /\ view a' = COMIC
  /\ loading a' = false.
Proof.
  destruct (run_ends_with_error_or_comic fair_world ready_app 0
              {| base64 := "iVBORw0KGgo="; filename := "cat.png" |}
              "image/png" eq_refl eq_refl)
    as (Hload & _ & _ & _); [discriminate|].
  split; [vm_compute; reflexivity|]. split; [vm_compute; reflexivity|].
  split; [vm_compute; reflexivity | exact Hload].
Defined.

(** X4.  When a run ends without an error, its panel list pairs, entry by
    entry and in the order of the script, the caption of the entry with the
    first inline data of the reply to the image prompt of that same entry;
    the reply to entry [i] (from 0) is the one to request [n + 1 + i], the
    script having taken request [n].  The entries are what the loop visits:
    the elements of a list, the characters of a string. *)
Theorem comic_pairs_each_caption_with_its_image w a n :
  let a' := app (snd (handleGenerateComic w (start a n))) in
  error a' = None ->
  exists image mime script prompts,
    uploadedImage a = Some image
    /\ uploadedImageMimeType a = Some mime
    /\ fst (generateComicPrompts w (base64 image) mime DEFAULT_PANEL_COUNT
              (start a n)) = inr script
    /\ iterate "panelPrompts" script = inr prompts
    /\ length (comicPanels a') = length prompts
    /\ forall i prompt,
         prompts !! i = Some prompt ->
         exists panel,
           comicPanels a' !! i = Some panel
           /\ panel_of_entry w (n + 1 + i) prompt panel.
Proof.
  intros a'. subst a'. rewrite handleGenerateComic_eq. cbn [start app].
  destruct (uploadedImage a) as [image|];
    [destruct (uploadedImageMimeType a) as [[|c rest]|]|]; try discriminate.
  pose proof (try_block_outcome w image (String c rest) (opened (start a n)))
    as Hout.
  destruct (try_block w image (String c rest) (opened (start a n)))
    as [[e|[]] s1]; cbv zeta in Hout; cbn [fst snd] in Hout.
  - cbv zeta. cbn. discriminate.
  - destruct Hout as (script & prompts & panels & Hscript & Hit & _ & Hlen
                      & Hall & Happ).
    cbn [snd app]. rewrite Happ. cbn. intros _.
    exists image, (String c rest), script, prompts.
    split; [reflexivity|]. split; [reflexivity|].
    split; [rewrite <- Hscript; now apply generateComicPrompts_result_at|].
    split; [exact Hit|]. split; [exact Hlen|].
    intros i prompt Hp. destruct (Hall i prompt Hp) as (panel & H1 & H2).
    exists panel. split; [exact H1|].
    now replace (n + 1 + i)%nat with (S n + i)%nat by lia.
Qed.

(** In [fair_world] the third panel has the caption of the third entry; in
    [euro_world], where the script is a string of one character of three
    bytes, the loop runs once and the run has sent two requests. *)
Lemma comic_pairs_each_caption_with_its_image_witness :
  (exists panel,
      comicPanels (app (snd (handleGenerateComic fair_world
                               (start ready_app 0))))
        !! 2%nat = Some panel
      /\ caption panel = JStr "Hello, birds!")
  /\ (let s' := snd (handleGenerateComic euro_world (start ready_app 0)) in
      iterate "panelPrompts" (JStr "€") = inr [JStr "€"]
      /\ comicPanels (app s')
         = [{| caption := JUndefined; imageBase64 := JStr "QUJD" |}]
      /\ requests s' = 2%nat).
Proof.
  split.
  - destruct (comic_pairs_each_caption_with_its_image fair_world ready_app 0)
      as (image & mime & script & prompts & _ & _ & _ & _ & _ & _);
      [vm_compute; reflexivity|].
    eexists. split; vm_compute; reflexivity.
  - destruct (comic_pairs_each_caption_with_its_image euro_world ready_app 0)
      as (image & mime & script & prompts & _ & _ & _ & _ & _ & _);
      [vm_compute; reflexivity|].
    cbv zeta. repeat split; vm_compute; reflexivity.
Defined.

(** ** The order of the strip *)

(** C3 (as the claim states it, refuted).  In [swapped_world] the service
    returns four entries within their limits whose numbers form the set
    1..4, the entry numbered 2 standing before the entry numbered 1.  The
    run ends without an error, and the strip stitched from its panel list
    shows the panels in the order of the list: the kite in the air and its
    caption, which belong to panel 2, are drawn first, at the left end, and
    those of panel 1 after them, in the second slot; read from the left,
    the panel numbers on the strip are 2, 1, 3, 4. *)
Lemma C3_counterexample :
  let w := swapped_world in
  let s' := snd (handleGenerateComic w (start ready_app 0)) in
  let caption_at x txt :=
    FillText "#333" "20px Arial" "center" "alphabetic" txt x 555 in
  fst (generateComicPrompts w "iVBORw0KGgo=" "image/png" DEFAULT_PANEL_COUNT
         (start ready_app 0)) = inr (JArr swapped_entries)
  /\ well_formed_script DEFAULT_PANEL_COUNT (JArr swapped_entries) = true
  /\ map panel_number swapped_entries = [2; 1; 3; 4]
  /\ strictly_increasing (map panel_number swapped_entries) = false
  /\ error (app s') = None
  /\ exists c',
       fst (drawComicForDownload w 0 (Some blank_canvas)
              (comicPanels (app s'))) = Some c'
       /\ bitmap c' =
          [FillRect "#f9fafb" 0 0 2100 590;
           DrawImage kite_image 20 20 500 500;
           caption_at 270 "Up it goes!";
           DrawImage sample_image 540 20 500 500;
           caption_at 790 "A kitten finds a kite.";
           DrawImage sample_image 1060 20 500 500;
           caption_at 1310 "Hello, birds!";
           DrawImage sample_image 1580 20 500 500;
           caption_at 1830 "Home again."]
       /\ drawn_numbers swapped_entries (bitmap c')
          = [Some 2; Some 1; Some 3; Some 4].
Proof.
  cbv zeta. repeat split; try (vm_compute; reflexivity).
  eexists. repeat split; vm_compute; reflexivity.
Qed.

(** C3 (amended).  The operations on the stitched raster are the background
    followed by the slots of the panels in the order of the panel list,
    slot after slot; the loads are awaited one by one in that same order;
    and the slot of the [i]-th panel of the list (from 0) whose
    illustration loads starts by drawing it at (P + i*(W+P), P), scaled to
    W by H.  When the list is the panel list of a run that ended without an
    error, its order is the order of the script as the Prompt Generator
    returned it: the [i]-th panel is the panel of the [i]-th entry the loop
    visits, answered by request [n + 1 + i], whatever number the entry
    carries. *)
Theorem C3_panels_drawn_in_list_order w t canvas panels :
  panels <> [] ->
  has_2d canvas = true ->
  exists c' slots,
    fst (drawComicForDownload w t (Some canvas) panels) = Some c'
    /\ bitmap c' =
       FillRect "#f9fafb" 0 0 (width c') (height c') :: concat slots
    /\ length slots = length panels
    /\ (forall i panel img,
           panels !! i = Some panel ->
           load_image w (t + i) (panel_src panel) = Some img ->
           exists rest,
             slots !! i =
             Some (DrawImage img
                     (COMIC_PADDING
                      + Z.of_nat i * (PANEL_WIDTH + COMIC_PADDING))
                     COMIC_PADDING PANEL_WIDTH PANEL_HEIGHT :: rest))
    /\ (forall a n,
           let a' := app (snd (handleGenerateComic w (start a n))) in
           error a' = None ->
           comicPanels a' = panels ->
           exists image mime script prompts,
             uploadedImage a = Some image
             /\ uploadedImageMimeType a = Some mime
             /\ fst (generateComicPrompts w (base64 image) mime
                       DEFAULT_PANEL_COUNT (start a n)) = inr script
             /\ iterate "panelPrompts" script = inr prompts
             /\ length prompts = length panels
             /\ forall i prompt,
                  prompts !! i = Some prompt ->
                  exists panel,
                    panels !! i = Some panel
                    /\ panel_of_entry w (n + 1 + i) prompt panel).
Proof.
  intros Hne H2d.
  destruct (expected_strip_slots w t panels) as (slots & Hb & Hlen & Hslot).
  exists (expected_strip w t panels), slots.
  rewrite (drawComicForDownload_strip w t canvas panels H2d Hne).
  split; [reflexivity|]. split; [exact Hb|]. split; [exact Hlen|]. split.
  - intros i panel img Hi Hload. rewrite (Hslot i panel Hi).
    unfold expected_slot. rewrite Hload. eexists. reflexivity.
  - intros a n a'. subst a'. rewrite handleGenerateComic_eq. cbn [start app].
    destruct (uploadedImage a) as [image|];
      [destruct (uploadedImageMimeType a) as [[|c rest]|]|];
      try discriminate.
    pose proof (try_block_outcome w image (String c rest)
                  (opened (start a n))) as Hout.
    destruct (try_block w image (String c rest) (opened (start a n)))
      as [[e|[]] s1]; cbv zeta in Hout; cbn [fst snd] in Hout.
    + cbv zeta. cbn. discriminate.
    + destruct Hout as (script & prompts & made & Hscript & Hit & _ & Hcount
                        & Hall & Happ).
      cbn [snd app]. rewrite Happ. cbn. intros _ <-.
      exists image, (String c rest), script, prompts.
      split; [reflexivity|]. split; [reflexivity|].
      split; [rewrite <- Hscript; now apply generateComicPrompts_result_at|].
      split; [exact Hit|]. split; [now symmetry|].
      intros i prompt Hp. destruct (Hall i prompt Hp) as (panel & H1 & H2).
      exists panel. split; [exact H1|].
      now replace (n + 1 + i)%nat with (S n + i)%nat by lia.
Qed.

Lemma C3_panels_drawn_in_list_order_witness :
  exists c' slots rest,
    fst (drawComicForDownload fair_world 0 (Some blank_canvas) four_panels)
      = Some c'
    /\ bitmap c' = FillRect "#f9fafb" 0 0 2100 590 :: concat slots
    /\ slots !! 2%nat = Some (DrawImage sample_image 1060 20 500 500 :: rest)
    /\ panel_of_entry fair_world 3
         (script_entry 3 "The kitten waves at birds" "Hello, birds!")
         (good_panel "Hello, birds!").
Proof.
  destruct (C3_panels_drawn_in_list_order fair_world 0 blank_canvas
              four_panels)
    as (c' & slots & Hc & Hb & _ & Hslot & Hrun);
    [discriminate | reflexivity |].
  destruct (Hslot 2%nat (good_panel "Hello, birds!") sample_image)
    as (rest & Hrest); [reflexivity | reflexivity |].
  exists c', slots, rest. split; [exact Hc|]. split; [|split; [exact Hrest|]].
  - rewrite Hb. f_equal. f_equal.
    + injection Hc as <-. reflexivity.
    + injection Hc as <-. reflexivity.
  - destruct (Hrun ready_app 0%nat)
      as (image & mime & script & prompts & Himg & Hmime & Hscript & Hit & _
          & Hall);
      [vm_compute; reflexivity | vm_compute; reflexivity |].
    injection Himg as <-. injection Hmime as <-.
    assert (Hs : fst (generateComicPrompts fair_world "iVBORw0KGgo="
                        "image/png" DEFAULT_PANEL_COUNT (start ready_app 0))
                 = inr sample_script) by (vm_compute; reflexivity).
    cbn [base64] in Hscript. rewrite Hs in Hscript. injection Hscript as <-.
    injection Hit as <-.
    destruct (Hall 2%nat _ eq_refl) as (panel & Hpanel & Hentry).
    injection Hpanel as <-. exact Hentry.
Defined.

(** ** Runs that never reach the panels *)

Lemma quiet_no_invoke mid g :
  quiet mid -> Forall (fun ev => ev <> Invoke g) mid.
Proof.
  intros H. eapply Forall_impl; [exact H|].
  intros ev [Hc _] ->. discriminate.
Qed.

(** The log and the state of a run whose [try] block stops right after the
    call of the Prompt Generator, with the error [err]. *)
Lemma run_stopped_after_script w a n image c rest r0 s0 err :
  uploadedImage a = Some image ->
  uploadedImageMimeType a = Some (String c rest) ->
  generateComicPrompts w (base64 image) (String c rest) DEFAULT_PANEL_COUNT
    (opened (start a n)) = (r0, s0) ->
  try_block w image (String c rest) (opened (start a n)) = (inl err, s0) ->
  let s' := snd (handleGenerateComic w (start a n)) in
  Forall (fun ev => ev <> Invoke PanelImageGenerator) (log s')
  /\ invocations (log s') = 1%nat
  /\ requests s' = (requests_per_call w + n)%nat
  /\ error (app s') = Some ("Error al generar el cómic: " ++ message err)%string
  /\ comicPanels (app s') = []
  /\ view (app s') = view a.
Proof.
  intros Himg Hmime Hcall Htry s'. subst s'.
  rewrite handleGenerateComic_eq. cbn [start app]. rewrite Himg, Hmime, Htry.
  pose proof (generateComicPrompts_log w (base64 image) (String c rest)
                DEFAULT_PANEL_COUNT (opened (start a n))) as Hlog.
  pose proof (generateComicPrompts_requests w (base64 image) (String c rest)
                DEFAULT_PANEL_COUNT (opened (start a n))) as Hreq.
  rewrite Hcall in Hlog, Hreq. cbv zeta in Hlog. cbn [fst snd] in Hlog, Hreq.
  destruct Hlog as (Happ & mid & Hmid & Hlog).
  cbv zeta. cbn [snd log app requests]. rewrite Hlog, Hreq, Happ.
  cbn [opened start log app requests Datatypes.app].
  rewrite <- !app_assoc. cbn [Datatypes.app].
  split; [|split; [|split; [reflexivity|repeat split]]].
  - repeat (constructor; [discriminate|]).
    apply Forall_app. split; [now apply quiet_no_invoke|].
    repeat (constructor; [discriminate|]). constructor.
  - rewrite !invocations_quiet_cons by reflexivity.
    change (Invoke PromptGenerator :: mid ++ ?l)
      with ([Invoke PromptGenerator] ++ mid ++ l).
    rewrite !invocations_app, (quiet_invocations _ Hmid). reflexivity.
Qed.

(** X5.  When the Prompt Generator fails, for whatever reason, the run
    invokes no Panel Image Generator: the Prompt Generator is its only call,
    the panel list stays empty, the view stays, and the error shown is the
    message of the failure behind a fixed prefix. *)
Theorem prompt_failure_ends_the_run w a n image mime err :
  uploadedImage a = Some image ->
  uploadedImageMimeType a = Some mime -> mime <> ""%string ->
  fst (generateComicPrompts w (base64 image) mime DEFAULT_PANEL_COUNT
         (start a n)) = inl err ->
  let s' := snd (handleGenerateComic w (start a n)) in
  Forall (fun ev => ev <> Invoke PanelImageGenerator) (log s')
  /\ invocations (log s') = 1%nat
  /\ error (app s') = Some ("Error al generar el cómic: " ++ message err)%string
  /\ comicPanels (app s') = []
  /\ view (app s') = view a.
Proof.
  intros Himg Hmime Hne Hfail.
  destruct mime as [|c rest]; [congruence|].
  destruct (generateComicPrompts w (base64 image) (String c rest)
              DEFAULT_PANEL_COUNT (opened (start a n))) as [r0 s0] eqn:Hcall.
  assert (Hr0 : r0 = inl err).
  { rewrite <- Hfail.
    rewrite (generateComicPrompts_result_at w _ _ _ (start a n)
               (opened (start a n)) eq_refl).
    now rewrite Hcall. }
  subst r0.
  assert (Htry : try_block w image (String c rest) (opened (start a n))
                 = (inl err, s0))
    by (now rewrite try_block_eq, Hcall).
  destruct (run_stopped_after_script w a n image c rest _ s0 err
              Himg Hmime Hcall Htry) as (H1 & H2 & _ & H3 & H4 & H5).
  cbv zeta. auto.
Qed.

Lemma prompt_failure_ends_the_run_witness :
  let s' := snd (handleGenerateComic offline_world (start ready_app 0)) in
  invocations (log s') = 1%nat
  /\ error (app s') =
     Some "Error al generar el cómic: Failed to generate comic prompts: Failed to fetch"%string.
Proof.
  destruct (prompt_failure_ends_the_run offline_world ready_app 0
              {| base64 := "iVBORw0KGgo="; filename := "cat.png" |}
              "image/png"
              (mkExn TransportError
                 "Failed to generate comic prompts: Failed to fetch"))
    as (_ & H1 & H2 & _); try reflexivity; [discriminate|].
  split; [exact H1 | exact H2].
Defined.

(** X6.  When the Prompt Generator returns a value that is falsy or has a
    [length] of zero (an empty list among them), the run rejects it before
    the loop: no Panel Image Generator is invoked, and the error shown is the
    message of the orchestrator about the missing descriptions. *)
Theorem empty_script_ends_the_run w a n image mime script :
  uploadedImage a = Some image ->
  uploadedImageMimeType a = Some mime -> mime <> ""%string ->
  fst (generateComicPrompts w (base64 image) mime DEFAULT_PANEL_COUNT
         (start a n)) = inr script ->
  no_prompts script = true ->
  let s' := snd (handleGenerateComic w (start a n)) in
  Forall (fun ev => ev <> Invoke PanelImageGenerator) (log s')
  /\ invocations (log s') = 1%nat
  /\ error (app s') =
     Some "Error al generar el cómic: El modelo no pudo generar las descripciones para las viñetas del cómic."%string
  /\ comicPanels (app s') = []
  /\ view (app s') = view a.
Proof.
  intros Himg Hmime Hne Hscript Hno.
  destruct mime as [|c rest]; [congruence|].
  destruct (generateComicPrompts w (base64 image) (String c rest)
              DEFAULT_PANEL_COUNT (opened (start a n))) as [r0 s0] eqn:Hcall.
  assert (Hr0 : r0 = inr script).
  { rewrite <- Hscript.
    rewrite (generateComicPrompts_result_at w _ _ _ (start a n)
               (opened (start a n)) eq_refl).
    now rewrite Hcall. }
  subst r0.
  assert (Htry : try_block w image (String c rest) (opened (start a n))
                 = (inl (mkExn EmptyScriptError
                           "El modelo no pudo generar las descripciones para las viñetas del cómic."),
                    s0))
    by (now rewrite try_block_eq, Hcall, Hno).
  destruct (run_stopped_after_script w a n image c rest _ s0 _
              Himg Hmime Hcall Htry) as (H1 & H2 & _ & H3 & H4 & H5).
  cbv zeta. auto.
Qed.

Lemma empty_script_ends_the_run_witness :
  let s' := snd (handleGenerateComic empty_list_world (start ready_app 0)) in
  no_prompts (JArr []) = true
  /\ invocations (log s') = 1%nat
  /\ comicPanels (app s') = [].
Proof.
  destruct (empty_script_ends_the_run empty_list_world ready_app 0
              {| base64 := "iVBORw0KGgo="; filename := "cat.png" |}
              "image/png" (JArr []))
    as (_ & H1 & _ & H2 & _); try reflexivity; [discriminate|].
  split; [reflexivity|]. split; [exact H1 | exact H2].
Defined.

(** X7.  Without an API key a run sends nothing to the service: the Prompt
    Generator is called once and fails before any request, the failure is
    not wrapped or logged by the service, and the error shown names the
    missing variable. *)
Theorem missing_key_sends_nothing w a n image mime :
  uploadedImage a = Some image ->
  uploadedImageMimeType a = Some mime -> mime <> ""%string ->
  ~ api_key_set w ->
  let s' := snd (handleGenerateComic w (start a n)) in
  requests s' = n
  /\ invocations (log s') = 1%nat
  /\ error (app s') =
     Some "Error al generar el cómic: API_KEY environment variable is not set."%string
  /\ Forall (fun ev =>
               forall label e, ev = ConsoleError label e ->
                               label = "Error al generar el cómic:"%string)
            (log s').
Proof.
  intros Himg Hmime Hne Hkey.
  destruct mime as [|c rest]; [congruence|].
  assert (Hnone : match API_KEY w with Some (String _ _) => False | _ => True end).
  { destruct (API_KEY w) as [[|c' k]|] eqn:E; try exact I.
    apply Hkey. unfold api_key_set. rewrite E. eauto. }
  assert (Hcall :
    generateComicPrompts w (base64 image) (String c rest) DEFAULT_PANEL_COUNT
      (opened (start a n))
    = (inl (mkExn ConfigurationError
              "API_KEY environment variable is not set."),
       {| app := app (opened (start a n)); requests := n;
          log := log (opened (start a n))
                 ++ [Invoke PromptGenerator; Settle PromptGenerator false] |})).
  { unfold generateComicPrompts. unfold_monad.
    destruct (API_KEY w) as [[|c' k]|]; try contradiction;
      cbn [fst snd app log requests succeeded opened start];
      rewrite <- !app_assoc; reflexivity. }
  assert (Htry : try_block w image (String c rest) (opened (start a n))
                 = (inl (mkExn ConfigurationError
                           "API_KEY environment variable is not set."), _))
    by (now rewrite try_block_eq, Hcall).
  destruct (run_stopped_after_script w a n image c rest _ _ _
              Himg Hmime Hcall Htry) as (_ & H2 & H3 & H4 & _).
  cbv zeta. split.
  { rewrite H3. unfold requests_per_call.
    destruct (API_KEY w) as [[|c' k]|]; try contradiction; reflexivity. }
  split; [exact H2|]. split; [exact H4|].
  rewrite handleGenerateComic_eq. cbn [start app].
  rewrite Himg, Hmime, Htry. cbv zeta. cbn [snd log opened start].
  rewrite <- !app_assoc. cbn [Datatypes.app].
  repeat (constructor; [intros label e [=]; subst; reflexivity
                                 || (intros label e; discriminate)|]).
  constructor.
Qed.

Lemma missing_key_sends_nothing_witness :
  let s' := snd (handleGenerateComic keyless_world (start ready_app 5)) in
  requests s' = 5%nat
  /\ error (app s') =
     Some "Error al generar el cómic: API_KEY environment variable is not set."%string.
Proof.
  destruct (missing_key_sends_nothing keyless_world ready_app 5
              {| base64 := "iVBORw0KGgo="; filename := "cat.png" |}
              "image/png")
    as (H1 & _ & H2 & _); try reflexivity; [discriminate| |].
  - intros (c & k & H). discriminate.
  - split; [exact H1 | exact H2].
Defined.

(** ** Runs without an image *)

Lemma try_block_invokes w image mime s :
  exists evs,
    log (snd (try_block w image mime s))
    = log s ++ Invoke PromptGenerator :: evs.
Proof.
  rewrite try_block_eq.
  pose proof (generateComicPrompts_log w (base64 image) mime
                DEFAULT_PANEL_COUNT s) as Hcall.
  destruct (generateComicPrompts w (base64 image) mime DEFAULT_PANEL_COUNT s)
    as [r0 s0].
  cbv zeta in Hcall. cbn [fst snd] in Hcall.
  destruct Hcall as (_ & mid & _ & Hlog).
  assert (Hhere : exists evs, log s0 = log s ++ Invoke PromptGenerator :: evs)
    by (eexists; exact Hlog).
  destruct r0 as [e|panelPrompts]; [exact Hhere|].
  destruct (no_prompts panelPrompts); [exact Hhere|].
  destruct (iterate "panelPrompts" panelPrompts) as [e|prompts];
    [exact Hhere|].
  pose proof (generate_panels_log w prompts [] s0) as Hloop.
  destruct (generate_panels w prompts [] s0) as [r2 s2].
  cbv zeta in Hloop. cbn [fst snd] in Hloop.
  destruct Hloop as (_ & evs & q & Hlog2 & _).
  destruct r2 as [e|generatedPanels]; cbn [snd log]; rewrite Hlog2, Hlog;
    rewrite <- ?app_assoc; cbn [Datatypes.app]; eexists; reflexivity.
Qed.

(** X8.  Without an uploaded image, or with a MIME type that is missing or
    empty, [handleGenerateComic] only sets the error about the missing
    image: nothing is invoked, nothing is requested, and the rest of the
    state is left as it was.  That is what happens after [handleNewImage],
    and after [handleImageUpload] with an empty MIME type; after
    [handleImageUpload] with any other MIME type the Prompt Generator is
    invoked. *)
Theorem generation_needs_an_image w a n :
  let refusal a0 :=
    (inr tt,
     {| app := apply_update
                 (SetError (Some "No hay imagen cargada para generar el cómic."))
                 a0;
        requests := n;
        log := [SetState
                  (SetError
                     (Some "No hay imagen cargada para generar el cómic."))] |})
  in
  (uploadedImage a = None \/ uploadedImageMimeType a = None
   \/ uploadedImageMimeType a = Some ""%string ->
   handleGenerateComic w (start a n) = refusal a)
  /\ handleGenerateComic w (start (handleNewImage a) n)
     = refusal (handleNewImage a)
  /\ (forall base64 filename,
        handleGenerateComic w
          (start (handleImageUpload base64 filename "" a) n)
        = refusal (handleImageUpload base64 filename "" a))
  /\ (forall base64 filename mimeType,
        mimeType <> ""%string ->
        In (Invoke PromptGenerator)
           (log (snd (handleGenerateComic w
                        (start (handleImageUpload base64 filename mimeType a)
                               n))))).
Proof.
  cbv zeta. split; [|split; [|split]].
  - intros H. rewrite handleGenerateComic_eq. cbn [start app].
    destruct H as [-> | [H | H]]; [reflexivity | |];
      rewrite H; destruct (uploadedImage a); reflexivity.
  - rewrite handleGenerateComic_eq. reflexivity.
  - intros base64 filename. rewrite handleGenerateComic_eq. reflexivity.
  - intros base64 filename mimeType Hne.
    rewrite handleGenerateComic_eq.
    cbn [start app handleImageUpload uploadedImage uploadedImageMimeType].
    destruct mimeType as [|c rest]; [congruence|].
    match goal with
    | |- context [try_block w ?image ?mime ?s] =>
        destruct (try_block_invokes w image mime s) as (evs & Hlog);
        destruct (try_block w image mime s) as [[e|[]] s1]
    end; cbn [snd] in Hlog; cbv zeta; cbn [snd log]; rewrite Hlog;
      rewrite <- app_assoc; apply in_or_app; right; left; reflexivity.
Qed.

Lemma generation_needs_an_image_witness :
  handleGenerateComic fair_world (start (handleNewImage ready_app) 0)
  = (inr tt,
     {| app := apply_update
                 (SetError (Some "No hay imagen cargada para generar el cómic."))
                 (handleNewImage ready_app);
        requests := 0;
        log := [SetState
                  (SetError
                     (Some "No hay imagen cargada para generar el cómic."))] |})
  /\ In (Invoke PromptGenerator)
        (log (snd (handleGenerateComic fair_world
                     (start (handleImageUpload "iVBORw0KGgo=" "cat.png"
                               "image/png" (handleNewImage ready_app)) 0)))).
Proof.
  destruct (generation_needs_an_image fair_world (handleNewImage ready_app) 0)
    as (Hguard & _ & _ & Hup).
  split.
  - apply Hguard. left. reflexivity.
  - apply Hup. discriminate.
Defined.

(** ** The layout of the strip *)





(** ** What the strip holds *)

Lemma caption_texts_app ops1 ops2 :
  caption_texts (ops1 ++ ops2) = caption_texts ops1 ++ caption_texts ops2.
Proof.
  induction ops1 as [|op ops1 IH]; [reflexivity|].
  destruct op; cbn [Datatypes.app caption_texts]; try exact IH.
  destruct (String.eqb fillStyle0 "#333"); cbn [Datatypes.app]; now rewrite IH.
Qed.

Lemma illustrations_app ops1 ops2 :
  illustrations (ops1 ++ ops2)
  = (illustrations ops1 + illustrations ops2)%nat.
Proof.
  induction ops1 as [|op ops1 IH]; [reflexivity|].
  destruct op; cbn [Datatypes.app illustrations]; rewrite IH; reflexivity.
Qed.

Lemma fallback_boxes_app ops1 ops2 :
  fallback_boxes (ops1 ++ ops2)
  = (fallback_boxes ops1 + fallback_boxes ops2)%nat.
Proof.
  induction ops1 as [|op ops1 IH]; [reflexivity|].
  destruct op; cbn [Datatypes.app fallback_boxes]; try exact IH.
  destruct (String.eqb fillStyle0 "#e0e0e0"); rewrite IH; reflexivity.
Qed.

Lemma slots_contents w t panels : forall i,
  let ops := concat (imap (fun j => expected_slot w t (i + j)) panels) in
  caption_texts ops = map (fun panel => to_string (caption panel)) panels
  /\ illustrations ops = loaded_panels w (t + i) panels
  /\ (illustrations ops + fallback_boxes ops)%nat = length panels.
Proof.
  induction panels as [|panel rest IH]; intros i; [repeat split|].
  cbv zeta. cbn [imap concat map loaded_panels length].
  rewrite caption_texts_app, illustrations_app, fallback_boxes_app.
  assert (Hrest : imap ((fun j => expected_slot w t (i + j)) ∘ S) rest
                  = imap (fun j => expected_slot w t (S i + j)) rest).
  { apply imap_ext. intros j x _. unfold compose. f_equal. lia. }
  rewrite Hrest. destruct (IH (S i)) as (Hc & Hi & Hf).
  rewrite Hc, Hi. rewrite Hi in Hf.
  replace (t + S i)%nat with (S (t + i)) in * by lia.
  rewrite Nat.add_0_r. unfold expected_slot at 1 2 3 4.
  destruct (load_image w (t + i) (panel_src panel));
    cbn [fallback_ops caption_op Datatypes.app caption_texts illustrations
         fallback_boxes];
    change (String.eqb "#333" "#333") with true;
    change (String.eqb "#666" "#333") with false;
    change (String.eqb "#e0e0e0" "#e0e0e0") with true;
    cbv iota; repeat split; try reflexivity; lia.
Qed.

(** X10.  The stitched raster holds, for every panel of the list and in the
    order of the list, one caption, and one illustration or else one
    fallback box: the texts written in the caption colour are the captions
    of the panels, the illustrations drawn are as many as the panels whose
    image loaded, and illustrations and fallback boxes together are as many
    as the panels. *)
Theorem strip_holds_every_panel_once w t canvas panels :
  panels <> [] ->
  has_2d canvas = true ->
  exists c',
    fst (drawComicForDownload w t (Some canvas) panels) = Some c'
    /\ caption_texts (bitmap c')
       = map (fun panel => to_string (caption panel)) panels
    /\ illustrations (bitmap c') = loaded_panels w t panels
    /\ (illustrations (bitmap c') + fallback_boxes (bitmap c'))%nat
       = length panels.
Proof.
  intros Hne H2d. exists (expected_strip w t panels).
  rewrite (drawComicForDownload_strip w t canvas panels H2d Hne).
  split; [reflexivity|].
  cbn [expected_strip bitmap caption_texts illustrations fallback_boxes].
  change (String.eqb "#f9fafb" "#e0e0e0") with false. cbv iota.
  pose proof (slots_contents w t panels 0) as H. cbv zeta in H.
  rewrite Nat.add_0_r in H. exact H.
Qed.

Lemma strip_holds_every_panel_once_witness :
  exists c',
    fst (drawComicForDownload fair_world 0 (Some blank_canvas) one_bad_panel)
      = Some c'
    /\ caption_texts (bitmap c')
       = ["A kitten finds a kite."; "Up it goes!"; "Hello, birds!"]%string
    /\ illustrations (bitmap c') = 2%nat
    /\ fallback_boxes (bitmap c') = 1%nat.
Proof.
  destruct (strip_holds_every_panel_once fair_world 0 blank_canvas
              one_bad_panel)
    as (c' & Hc & Hcap & Hill & Hsum); [discriminate | reflexivity |].
  exists c'. split; [exact Hc|]. split; [exact Hcap|].
  assert (H2 : illustrations (bitmap c') = 2%nat) by exact Hill.
  split; [exact H2|]. rewrite H2 in Hsum. cbn [length one_bad_panel] in Hsum.
  lia.
Defined.

(** X11.  The effect of [ComicStrip] calls the drawing exactly when the markup
    holds the hidden canvas, so from the effect the drawing never finds the
    reference empty: with a canvas that gives a 2D context, the effect draws
    the strip and hands out its encoding when the list is not empty and
    [loading] is off, and otherwise there is no canvas and nothing is handed
    out. *)
Theorem effect_draws_on_the_rendered_canvas w t element panels loading :
  has_2d element = true ->
  (canvas_rendered panels loading = true ->
   exists c',
     ComicStrip_effect w t (mounted_canvas element panels loading)
       panels loading = (Some c', toDataURL w c')
     /\ length (bitmap c') <> 0%nat
     /\ width c' = strip_width (Z.of_nat (length panels)))
  /\ (canvas_rendered panels loading = false ->
      mounted_canvas element panels loading = None
      /\ ComicStrip_effect w t (mounted_canvas element panels loading)
           panels loading = (None, None)).
Proof.
  intros H2d. unfold mounted_canvas, canvas_rendered, ComicStrip_effect.
  destruct loading; cbn [negb andb].
  - split; [discriminate|]. intros _. rewrite andb_false_r. auto.
  - rewrite andb_true_r. split.
    + intros Hr. rewrite Hr.
      assert (Hne : panels <> [])
        by (intros ->; discriminate).
      rewrite (drawComicForDownload_strip w t element panels H2d Hne).
      eexists. split; [reflexivity|]. split; [discriminate | reflexivity].
    + intros Hr. rewrite Hr. auto.
Qed.

Lemma effect_draws_on_the_rendered_canvas_witness :
  exists c' url,
    ComicStrip_effect fair_world 0
      (mounted_canvas blank_canvas four_panels false) four_panels false
    = (Some c', Some url)
    /\ width c' = 2100.
Proof.
  destruct (effect_draws_on_the_rendered_canvas fair_world 0 blank_canvas
              four_panels false eq_refl) as (Hdraw & _).
  destruct (Hdraw eq_refl) as (c' & Heff & _ & Hw).
  exists c', "data:image/png;base64,iVBORw0KGgo="%string.
  split; [exact Heff | exact Hw].
Defined.

(** ** The uploader and the viewer *)

Lemma list_ascii_app s1 s2 :
  list_ascii_of_string (s1 ++ s2)%string
  = list_ascii_of_string s1 ++ list_ascii_of_string s2.
Proof. induction s1 as [|c s1 IH]; cbn; [reflexivity | now rewrite IH]. Qed.

Lemma append_empty_r s : (s ++ "")%string = s.
Proof. induction s as [|c s IH]; cbn; [reflexivity | now rewrite IH]. Qed.

Lemma split_cons sep c s :
  split sep (String c s) =
  if Ascii.eqb c sep then EmptyString :: split sep s
  else match split sep s with
       | piece :: pieces => String c piece :: pieces
       | [] => [String c EmptyString]
       end.
Proof. reflexivity. Qed.

Lemma split_not_nil sep s : split sep s <> [].
Proof.
  induction s as [|c s IH]; [discriminate|]. rewrite split_cons.
  destruct (Ascii.eqb c sep); [discriminate|].
  destruct (split sep s); [congruence | discriminate].
Qed.

(** A prefix without the separator joins the first piece. *)
Lemma split_app sep a s :
  lacks sep a ->
  split sep (a ++ s)%string =
  (a ++ nth 0 (split sep s) EmptyString)%string :: tl (split sep s).
Proof.
  unfold lacks. induction a as [|c a IH]; intros Ha.
  - cbn [String.append]. pose proof (split_not_nil sep s).
    destruct (split sep s); [congruence | reflexivity].
  - cbn [String.append]. rewrite split_cons.
    destruct (Ascii.eqb_spec c sep) as [->|_].
    + exfalso. apply Ha. now left.
    + rewrite IH; [reflexivity|]. intros Hin. apply Ha. now right.
Qed.

Lemma split_lacks sep a : lacks sep a -> split sep a = [a].
Proof.
  intros Ha. rewrite <- (append_empty_r a) at 1.
  rewrite (split_app sep a "" Ha). cbn. now rewrite append_empty_r.
Qed.

Lemma first_piece_chars sep c s :
  In c (list_ascii_of_string (nth 0 (split sep s) EmptyString)) ->
  In c (list_ascii_of_string s).
Proof.
  induction s as [|x s IH]; [intros []|]. rewrite split_cons.
  destruct (Ascii.eqb x sep); [intros []|].
  pose proof (split_not_nil sep s).
  destruct (split sep s) as [|piece pieces]; [congruence|].
  cbn. intros [H1|H1]; [now left | right; now apply IH].
Qed.

Ltac literal_lacks := unfold lacks; cbn; intuition discriminate.

Lemma handleSubmit_eq file preview :
  preview <> ""%string ->
  handleSubmit (Some file) (Some preview) =
  match nth_error (split ":" (nth 0 (split "," preview) EmptyString)) 1 with
  | None =>
      inl (mkExn TypeError
             "Cannot read properties of undefined (reading 'split')")
  | Some afterColon =>
      inr (Some (nth_error (split "," preview) 1, name file,
                 nth 0 (split ";" afterColon) EmptyString))
  end.
Proof. destruct preview; [congruence | reflexivity]. Qed.

(** X12.  [handleSubmit] undoes what [ImageViewer] does: from the data URL
    that the viewer builds for a payload and a MIME type, it hands the same
    payload and the same MIME type to [onImageUpload], with the name of the
    file, as long as the MIME type holds none of [,], [:] and [;] and the
    payload no comma. *)
Theorem uploader_reads_back_the_viewer_url file mimeType imageBase64 :
  lacks "," mimeType -> lacks ":" mimeType -> lacks ";" mimeType ->
  lacks "," imageBase64 ->
  handleSubmit (Some file) (Some (imageUrl imageBase64 mimeType))
  = inr (Some (Some imageBase64, name file, mimeType)).
Proof.
  intros Hcomma Hcolon Hsemi Hpay.
  assert (Hpieces :
    split "," (imageUrl imageBase64 mimeType)
    = [("data:" ++ mimeType ++ ";base64")%string; imageBase64]).
  { unfold imageUrl.
    rewrite (split_app "," "data:") by literal_lacks.
    rewrite (split_app "," mimeType _ Hcomma).
    assert (Hrest : split "," (";base64," ++ imageBase64)%string
                    = [";base64"%string; imageBase64]).
    { change (";base64," ++ imageBase64)%string
        with (";base64" ++ String "," imageBase64)%string.
      rewrite (split_app "," ";base64") by literal_lacks.
      rewrite split_cons. change (Ascii.eqb "," ",") with true. cbv iota.
      rewrite (split_lacks "," imageBase64 Hpay). reflexivity. }
    rewrite Hrest. reflexivity. }
  assert (Hheader :
    split ":" ("data:" ++ mimeType ++ ";base64")%string
    = ["data"%string; (mimeType ++ ";base64")%string]).
  { change ("data:" ++ mimeType ++ ";base64")%string
      with ("data" ++ String ":" (mimeType ++ ";base64"))%string.
    rewrite (split_app ":" "data") by literal_lacks.
    rewrite split_cons. change (Ascii.eqb ":" ":") with true. cbv iota.
    rewrite (split_app ":" mimeType _ Hcolon).
    rewrite (split_lacks ":" ";base64") by literal_lacks. reflexivity. }
  assert (Hmime :
    split ";" (mimeType ++ ";base64")%string = [mimeType; "base64"%string]).
  { rewrite (split_app ";" mimeType _ Hsemi). cbn.
    now rewrite append_empty_r. }
  rewrite handleSubmit_eq by (unfold imageUrl; discriminate).
  rewrite Hpieces. cbn [nth nth_error]. rewrite Hheader. cbn [nth_error].
  rewrite Hmime. reflexivity.
Qed.

Lemma uploader_reads_back_the_viewer_url_witness :
  handleSubmit (Some {| name := "cat.png" |})
    (Some "data:image/png;base64,iVBORw0KGgo=")
  = inr (Some (Some "iVBORw0KGgo=", "cat.png", "image/png"))%string.
Proof.
  apply (uploader_reads_back_the_viewer_url {| name := "cat.png" |}
           "image/png" "iVBORw0KGgo="); literal_lacks.
Defined.

(** X13.  [handleSubmit] calls nothing without a selected file or without a
    preview; on a preview that holds no colon it throws a [TypeError] before
    calling anything; and on a preview that holds no comma what it hands
    over as the payload is [undefined]. *)
Theorem handleSubmit_on_odd_previews file preview :
  handleSubmit None (Some preview) = inr None
  /\ handleSubmit (Some file) None = inr None
  /\ handleSubmit (Some file) (Some ""%string) = inr None
  /\ (preview <> ""%string -> lacks ":" preview ->
      fails_with TypeError (handleSubmit (Some file) (Some preview)))
  /\ (lacks "," preview ->
      forall base64Data filename mimeType,
        handleSubmit (Some file) (Some preview)
        = inr (Some (base64Data, filename, mimeType)) ->
        base64Data = None).
Proof.
  split; [reflexivity|]. split; [reflexivity|]. split; [reflexivity|].
  split.
  - intros Hne Hcolon. rewrite (handleSubmit_eq _ _ Hne).
    rewrite (split_lacks ":" (nth 0 (split "," preview) EmptyString)).
    + eexists. split; reflexivity.
    + intros Hin. apply Hcolon. eapply first_piece_chars. exact Hin.
  - intros Hcomma base64Data filename mimeType.
    destruct preview as [|c rest]; [intros [=]|].
    rewrite handleSubmit_eq by discriminate.
    rewrite (split_lacks "," _ Hcomma). cbn [nth nth_error].
    destruct (split ":" (String c rest)) as [|p0 [|p1 ps]];
      intros H; congruence.
Qed.

(** ** The download of the strip *)

Lemma underscore_for_space_units ch :
  code_units (underscore_for_space ch) = code_units ch.
Proof.
  unfold underscore_for_space. destruct (is_white_space ch) eqn:H;
    [now rewrite (white_space_is_one_unit ch H) | reflexivity].
Qed.

Lemma underscore_for_space_clean ch :
  is_white_space (underscore_for_space ch) = false.
Proof.
  unfold underscore_for_space. destruct (is_white_space ch) eqn:H;
    [reflexivity | exact H].
Qed.

Lemma white_space_starts_a_character ch :
  is_white_space ch = true ->
  char_shaped ch = true /\ starts_with_continuation ch = false.
Proof.
  unfold is_white_space, WHITE_SPACE. cbn [existsb].
  rewrite !orb_true_iff. intros H.
  repeat destruct H as [H|H]; try discriminate;
    apply String.eqb_eq in H; subst ch; split; reflexivity.
Qed.

Lemma grouped_replace chars :
  grouped chars -> grouped (map underscore_for_space chars).
Proof.
  assert (Hshape : forall ch, char_shaped ch = true ->
                              char_shaped (underscore_for_space ch) = true).
  { intros ch H. unfold underscore_for_space.
    destruct (is_white_space ch); [reflexivity | exact H]. }
  assert (Hstart : forall ch, starts_with_continuation ch = false ->
                    starts_with_continuation (underscore_for_space ch) = false).
  { intros ch H. unfold underscore_for_space.
    destruct (is_white_space ch); [reflexivity | exact H]. }
  intros [H1 H2]. split.
  - apply List.Forall_forall. intros x Hx. apply in_map_iff in Hx as (ch & <- & Hin).
    apply Hshape. revert ch Hin. now apply List.Forall_forall.
  - destruct chars as [|ch0 chars]; [constructor|]. cbn [map tail] in *.
    apply List.Forall_forall. intros x Hx. apply in_map_iff in Hx as (ch & <- & Hin).
    apply Hstart. revert ch Hin. now apply List.Forall_forall.
Qed.

(** The characters of the replaced title are those of the title, one for
    one, the white space turned into underscores. *)
Lemma code_points_replace_spaces s :
  code_points (replace_spaces s) = map underscore_for_space (code_points s).
Proof.
  unfold replace_spaces. apply code_points_join, grouped_replace,
    grouped_code_points.
Qed.

Lemma js_length_app s1 s2 :
  starts_with_continuation s2 = false ->
  js_length (s1 ++ s2) = (js_length s1 + js_length s2)%nat.
Proof.
  intros H. unfold js_length.
  now rewrite (code_points_app s1 s2 H), map_app, list_sum_app.
Qed.

Lemma js_length_replace_spaces s : js_length (replace_spaces s) = js_length s.
Proof.
  unfold js_length. rewrite code_points_replace_spaces, map_map.
  f_equal. apply map_ext. exact underscore_for_space_units.
Qed.

(** X14.  [handleDownload] of [ComicStrip] clicks a link only once a data URL
    is there, and the link points to that URL; the name it suggests is the
    title with every character of the class [\s] (the white space and the
    line terminators of Unicode) replaced, one for one, by an underscore,
    followed by [_comic.png]: its characters are those of the
    title with the underscores in place, then those of the suffix; it holds
    no white space; and its [length] is that of the title plus ten. *)
Theorem download_name_has_no_space comicTitle downloadLink :
  (ComicStrip_handleDownload comicTitle downloadLink = None <->
   downloadLink = None \/ downloadLink = Some ""%string)
  /\ forall href filename,
       ComicStrip_handleDownload comicTitle downloadLink
       = Some (href, filename) ->
       downloadLink = Some href
       /\ filename = (replace_spaces comicTitle ++ "_comic.png")%string
       /\ code_points filename =
          map (fun ch => if is_white_space ch then "_"%string else ch)
              (code_points comicTitle)
          ++ code_points "_comic.png"
       /\ js_length filename = (js_length comicTitle + 10)%nat
       /\ Forall (fun ch => is_white_space ch = false) (code_points filename).
Proof.
  unfold ComicStrip_handleDownload. split.
  - destruct downloadLink as [[|c rest]|]; split; auto; try discriminate.
    intros [H|H]; discriminate.
  - intros href filename.
    destruct downloadLink as [[|c rest]|]; try discriminate.
    intros [= <- <-]. split; [reflexivity|]. split; [reflexivity|].
    assert (Hcp : code_points (replace_spaces comicTitle ++ "_comic.png")%string
                  = map underscore_for_space (code_points comicTitle)
                    ++ code_points "_comic.png")
      by (rewrite code_points_app by reflexivity;
          now rewrite code_points_replace_spaces).
    split; [exact Hcp|]. split.
    + rewrite js_length_app by reflexivity.
      now rewrite js_length_replace_spaces.
    + rewrite Hcp. apply Forall_app. split.
      * apply List.Forall_forall. intros x Hx.
        apply in_map_iff in Hx as (ch & <- & _).
        apply underscore_for_space_clean.
      * repeat constructor.
Qed.

(** A title with a no-break space (U+00A0), a line separator (U+2028) and
    an accented letter. *)
Lemma download_name_has_no_space_witness :
  let title := ("Mi" ++ utf8 0xA0 ++ "gran" ++ utf8 0x2028 ++ "cómic")%string in
  ComicStrip_handleDownload title (Some "data:image/png;base64,iVBORw0KGgo=")
  = Some ("data:image/png;base64,iVBORw0KGgo=", "Mi_gran_cómic_comic.png")
  /\ js_length "Mi_gran_cómic_comic.png" = 23%nat
  /\ Forall (fun ch => is_white_space ch = false)
            (code_points "Mi_gran_cómic_comic.png").
Proof.
  intros title.
  destruct (download_name_has_no_space title
              (Some "data:image/png;base64,iVBORw0KGgo=")) as [_ H].
  destruct (H "data:image/png;base64,iVBORw0KGgo="
              "Mi_gran_cómic_comic.png")%string
    as (_ & _ & _ & Hlen & Hclean); [vm_compute; reflexivity|].
  split; [vm_compute; reflexivity|]. split; [|exact Hclean].
  rewrite Hlen. vm_compute. reflexivity.
Defined.

(** ** [encode] and [decode] *)

(** X15.  [decode] undoes [encode]: the base64 text of any array of bytes
    decodes, without an exception, to the same bytes. *)
Theorem decode_encode bytes : decode (encode bytes) = inr bytes.
Proof.
  unfold decode, encode. rewrite atob_btoa.
  rewrite list_ascii_of_string_of_list_ascii, map_map.
  f_equal. rewrite <- (map_id bytes) at 2. apply map_ext.
  intros b. apply byte_of_ascii_of_byte.
Qed.

(** X16.  The text [encode] returns for [n] bytes is four characters for each
    three bytes, the last three completed: [4 * ((n + 2) / 3)] characters. *)
Theorem encode_length bytes :
  String.length (encode bytes) = (4 * ((length bytes + 2) / 3))%nat.
Proof.
  unfold encode, btoa. rewrite list_ascii_of_string_of_list_ascii.
  rewrite <- (list_ascii_of_string_of_list_ascii
                (map sextet_char _ ++ repeat _ _)) at 1.
  set (octets := map ascii_of_byte bytes).
  assert (Hlen : forall l, String.length (string_of_list_ascii l) = length l)
    by (induction l as [|c l IH]; cbn; [reflexivity | now rewrite IH]).
  rewrite string_of_list_ascii_of_string, Hlen.
  rewrite length_app, length_map, repeat_length, sextets_of_length.
  replace (length bytes) with (length octets)
    by (unfold octets; apply length_map).
  pose proof (Nat.div_mod_eq (length octets) 3) as Hdiv.
  destruct (length octets mod 3)%nat as [|[|[|r]]] eqn:Hr; cbv iota; lia.
Qed.

Lemma strip_padding_keeps c l :
  In c l -> Ascii.eqb c "=" = false -> In c (strip_padding l).
Proof.
  intros Hin Hc. unfold strip_padding.
  assert (Hrev : In c (rev l)) by now apply in_rev in Hin.
  destruct (rev l) as [|e1 [|e2 r]] eqn:Hr; [destruct Hrev| |].
  - destruct Hrev as [->|[]]. now rewrite Hc.
  - destruct (Ascii.eqb e1 "=") eqn:H1; [|exact Hin].
    destruct Hrev as [->|Hrev]; [congruence|].
    destruct (Ascii.eqb e2 "=") eqn:H2.
    + destruct Hrev as [->|Hrev]; [congruence|]. now apply in_rev in Hrev.
    + now apply in_rev in Hrev.
Qed.

Lemma sextets_in_foreign c l :
  In c l -> char_sextet c = None -> sextets_in l = None.
Proof.
  induction l as [|x l IH]; [intros []|].
  intros [->|Hin] Hc; cbn [sextets_in].
  - now rewrite Hc.
  - rewrite (IH Hin Hc). destruct (char_sextet x); reflexivity.
Qed.

(** X17.  [decode] throws on any text that holds a character which is neither
    of the base64 alphabet, nor ["="], nor white space that [atob] skips. *)
Theorem decode_rejects_foreign_characters base64 c :
  In c (list_ascii_of_string base64) ->
  char_sextet c = None ->
  Ascii.eqb c "=" = false ->
  is_base64_space c = false ->
  decode base64 = inl InvalidCharacterError.
Proof.
  intros Hin Hc Heq Hsp. unfold decode, atob.
  set (l := filter _ _).
  assert (Hl : In c l).
  { apply list_elem_of_In. apply list_elem_of_filter.
    split; [now rewrite Hsp | now apply list_elem_of_In]. }
  set (l' := if (length l mod 4 =? 0)%nat then strip_padding l else l).
  assert (Hl' : In c l').
  { unfold l'. destruct (length l mod 4 =? 0)%nat; [|exact Hl].
    now apply strip_padding_keeps. }
  destruct (length l' mod 4 =? 1)%nat; [reflexivity|].
  now rewrite (sextets_in_foreign c l' Hl' Hc).
Qed.

Lemma decode_rejects_foreign_characters_witness :
  decode "TW*u" = inl InvalidCharacterError.
Proof.
  apply (decode_rejects_foreign_characters "TW*u" "*"%char);
    [cbn; auto | reflexivity | reflexivity | reflexivity].
Defined.
